(** * The rich-list backend: webhook ingestion and the contribution ledger

    A shallow embedding of [richlist_backend/index.js] (the Stripe webhook
    and the read route), [richlist_backend/processedEvent.js] (the dedup
    collection) and [leaderboardService.js] (the [Entry] schema,
    [getLeaderboard] and [addEntry]), with the properties of the ingestion
    engine stated over it.

    Conventions of the model:
    - a Mongo collection is the list of its documents in insertion order;
    - every [await]ed storage call is one atomic round trip that may throw;
      which calls throw is fixed by a fault plan carried in the world;
    - JavaScript numbers that hold money or coordinates are exact rationals
      ([Q]), without the rounding of binary64; [NaN] is the [None] of an
      [option Q]. Sums are stated term by term, in the order in which the
      code adds;
    - a JavaScript value that may be [undefined] is an [option]. *)

From Stdlib Require Import String List ZArith QArith Bool Arith Lia.
From Stdlib Require Import Permutation Sorted.
Import ListNotations.

Local Close Scope Q_scope.
Local Open Scope string_scope.
Local Open Scope list_scope.

(** ** JavaScript values *)

(** Truthiness of a value that is a string or [undefined]. *)
Definition truthy (v : option string) : bool :=
  match v with
  | Some s => negb (s =? "")
  | None => false
  end.

(** [v || ''] on such a value. *)
Definition or_empty (v : option string) : string :=
  match v with
  | Some s => s
  | None => ""
  end.

(** ** The documents *)

(** [position] as the webhook builds it: the coordinates come out of
    [parseFloat] and may be [NaN]. *)
Record PositionInput := {
  p_type : string;
  p_coordinates : list (option Q)
}.

(** [entryData], the object handed to [addEntry]. *)
Record EntryData := {
  e_name : option string;
  e_amount : Q;
  e_stripeCustomerID : option string;
  e_locationLabel : option string;
  e_message : string;
  e_position : option PositionInput
}.

(** The nested path [position] of a stored document. *)
Record Position := {
  pos_type : string;
  coordinates : option (list Q)
}.

(** A stored document of the [Entry] model ([entrySchema]). *)
Record Entry := {
  _id : nat;
  name : string;
  amount : Q;
  message : string;
  locationLabel : string;
  position : option Position;
  createdAt : Z;
  stripeCustomerID : string
}.

(** A stored document of the [ProcessedEvent] model: its [eventId]. *)
Definition ProcessedEvent := string.

Record Store := {
  entries : list Entry;
  processedEvents : list ProcessedEvent;
  nextId : nat
}.

Definition emptyStore : Store :=
  {| entries := []; processedEvents := []; nextId := 0 |}.

(** ** Storage calls, exceptions and the clock *)

Inductive Error :=
| StorageError
| ValidationError (path : string)
| DuplicateKey (index : string).

(** The world of one handler run: the shared store, the fault plan of the
    storage calls still to come ([true] = this round trip throws), and the
    value [Date.now] returns. *)
Record World := {
  store : Store;
  faults : list bool;
  now : Z
}.

Definition M (A : Type) : Type := World -> (Error + A) * World.

Definition ret {A} (a : A) : M A := fun w => (inr a, w).

Definition bind {A B} (m : M A) (k : A -> M B) : M B :=
  fun w =>
    match m w with
    | (inr a, w') => k a w'
    | (inl e, w') => (inl e, w')
    end.

Definition throw {A} (e : Error) : M A := fun w => (inl e, w).

(** [try { body } catch (err) { handler }] *)
Definition try_catch {A} (body : M A) (handler : Error -> M A) : M A :=
  fun w =>
    match body w with
    | (inr a, w') => (inr a, w')
    | (inl e, w') => handler e w'
    end.

Declare Scope js_scope.
Delimit Scope js_scope with js.
Notation "x <- m ;; k" := (bind m (fun x => k))
  (at level 61, m at next level, right associativity) : js_scope.
Notation "m ;; k" := (bind m (fun _ => k))
  (at level 61, right associativity) : js_scope.
Local Open Scope js_scope.

(** A client-side computation that may throw. *)
Definition lift {A} (r : Error + A) : M A := fun w => (r, w).

Definition getStore : M Store := fun w => (inr (store w), w).

Definition putStore (s : Store) : M unit :=
  fun w => (inr tt, {| store := s; faults := faults w; now := now w |}).

Definition Date_now : M Z := fun w => (inr (now w), w).

(** One round trip to the database: it consumes the head of the fault plan
    and throws when that head is [true]; an exhausted plan means no more
    faults. *)
Definition roundTrip : M unit :=
  fun w =>
    match faults w with
    | [] => (inr tt, w)
    | f :: fs =>
        let w' := {| store := store w; faults := fs; now := now w |} in
        if f then (inl StorageError, w') else (inr tt, w')
    end.

(** ** The [ProcessedEvent] model ([processedEvent.js]) *)

Module ProcessedEventModel.

(** The collection after the insert of one document. *)
Definition insertOne (eventId : string) (s : Store) : Store :=
  {| entries := entries s;
     processedEvents := processedEvents s ++ [eventId];
     nextId := nextId s |}.

(** [ProcessedEvent.findOne({ eventId })] *)
Definition findOne (eventId : string) : M (option ProcessedEvent) :=
  roundTrip ;;
  s <- getStore ;;
  ret (find (fun d => d =? eventId) (processedEvents s)).

(** [ProcessedEvent.create({ eventId })]: [eventId] is [required] (an
    empty string does not pass) and [unique]. *)
Definition create (eventId : string) : M unit :=
  if eventId =? "" then throw (ValidationError "eventId")
  else
    roundTrip ;;
    s <- getStore ;;
    if existsb (fun d => d =? eventId) (processedEvents s)
    then throw (DuplicateKey "eventId")
    else putStore (insertOne eventId s).

End ProcessedEventModel.

(** ** The [Entry] model ([entrySchema]) *)

Module EntryModel.

(** A [required] string path: present and not empty. *)
Definition required (path : string) (v : option string) : Error + string :=
  match v with
  | Some s => if s =? "" then inl (ValidationError path) else inr s
  | None => inl (ValidationError path)
  end.

(** Casting [position.coordinates] to [[Number]]: [NaN] does not cast. *)
Fixpoint castNumbers (l : list (option Q)) : option (list Q) :=
  match l with
  | [] => Some []
  | Some q :: l' =>
      match castNumbers l' with
      | Some qs => Some (q :: qs)
      | None => None
      end
  | None :: _ => None
  end.

(** The nested path [position]: [position.type] defaults to ['Point'];
    [position.coordinates] is an array under a [2dsphere] index, which gets
    no default, so an entry handed over without a [position] is stored with
    [position: { type: 'Point' }] and no [coordinates]. *)
Definition castPosition (p : option PositionInput) : Error + Position :=
  match p with
  | None => inr {| pos_type := "Point"; coordinates := None |}
  | Some pi =>
      if negb (p_type pi =? "Point")
      then inl (ValidationError "position.type")
      else
        match castNumbers (p_coordinates pi) with
        | Some qs => inr {| pos_type := p_type pi; coordinates := Some qs |}
        | None => inl (ValidationError "position.coordinates")
        end
  end.

(** Does a document answer the filter [{ stripeCustomerID: key }]? *)
Definition matches (key : option string) (d : Entry) : bool :=
  match key with
  | Some k => stripeCustomerID d =? k
  | None => false
  end.

(** [Entry.findOne({ stripeCustomerID: key })] *)
Definition findOne (key : option string) : M (option Entry) :=
  roundTrip ;;
  s <- getStore ;;
  ret (find (matches key) (entries s)).

(** The collection after the insert of the document [d]. *)
Definition insertOne (d : Entry) (s : Store) : Store :=
  {| entries := entries s ++ [d];
     processedEvents := processedEvents s;
     nextId := S (nextId s) |}.

(** [Entry.create(entry)]: validation and defaults on the client, then
    one insert, which the unique index on [stripeCustomerID] may refuse. *)
Definition create (entry : EntryData) : M unit :=
  nm <- lift (required "name" (e_name entry)) ;;
  loc <- lift (required "locationLabel" (e_locationLabel entry)) ;;
  pos <- lift (castPosition (e_position entry)) ;;
  cid <- lift (required "stripeCustomerID" (e_stripeCustomerID entry)) ;;
  t <- Date_now ;;
  roundTrip ;;
  s <- getStore ;;
  if existsb (fun d => stripeCustomerID d =? cid) (entries s)
  then throw (DuplicateKey "stripeCustomerID")
  else
    putStore (insertOne {| _id := nextId s;
                           name := nm;
                           amount := e_amount entry;
                           message := e_message entry;
                           locationLabel := loc;
                           position := Some pos;
                           createdAt := t;
                           stripeCustomerID := cid |} s).

(** What [save] writes: the paths [addEntry] assigns on the loaded
    document, [amount] always and [message] when it was assigned. *)
Record Modified := {
  set_amount : Q;
  set_message : option string
}.

Definition applyModified (m : Modified) (d : Entry) : Entry :=
  {| _id := _id d;
     name := name d;
     amount := set_amount m;
     message := match set_message m with Some s => s | None => message d end;
     locationLabel := locationLabel d;
     position := position d;
     createdAt := createdAt d;
     stripeCustomerID := stripeCustomerID d |}.

(** The collection after the update of the document whose [_id] is [id]. *)
Definition updateOne (id : nat) (m : Modified) (s : Store) : Store :=
  {| entries := map (fun d => if Nat.eqb (_id d) id
                              then applyModified m d else d)
                    (entries s);
     processedEvents := processedEvents s;
     nextId := nextId s |}.

(** [existing.save()]: one update of the document with this [_id]. *)
Definition save (existing : Entry) (m : Modified) : M unit :=
  roundTrip ;;
  s <- getStore ;;
  putStore (updateOne (_id existing) m s).

End EntryModel.


(** ** Sorting a query result

    [.sort({ k: -1 })]: the documents in descending order of the key [k].
    Documents with equal keys come back in the order of the collection; the
    query names no second key. *)

Section MongoSort.

Context {A K : Type} (key : A -> K) (leb : K -> K -> bool).

Fixpoint insertDesc (x : A) (l : list A) : list A :=
  match l with
  | [] => [x]
  | y :: l' => if leb (key y) (key x) then x :: l else y :: insertDesc x l'
  end.

Definition sortDesc (l : list A) : list A := fold_right insertDesc [] l.

(** [x] may stand before [y] in a descending result. *)
Definition before (x y : A) : Prop := leb (key y) (key x) = true.

End MongoSort.

(** ** [leaderboardService.js] *)

Module LeaderboardService.

(** An element of the array [getLeaderboard] returns:
    [{ ...entry, lat, lng }]. *)
Record Row := {
  row_entry : Entry;
  lat : option Q;
  lng : option Q
}.

(** [entry.position && entry.position.coordinates
       ? entry.position.coordinates[i] : undefined] *)
Definition coordinate (i : nat) (entry : Entry) : option Q :=
  match position entry with
  | Some p =>
      match coordinates p with
      | Some cs => nth_error cs i
      | None => None
      end
  | None => None
  end.

Definition toRow (entry : Entry) : Row :=
  {| row_entry := entry;
     lat := coordinate 1 entry;
     lng := coordinate 0 entry |}.

(** [Entry.find().sort({ createdAt: -1 }).lean().exec()] *)
Definition find_sort_createdAt : M (list Entry) :=
  roundTrip ;;
  s <- getStore ;;
  ret (sortDesc createdAt Z.leb (entries s)).

Definition getLeaderboard : M (list Row) :=
  try_catch
    (found <- find_sort_createdAt ;;
     ret (map toRow found))
    (fun _ => ret []).

(** The assignments of the top-up branch on the loaded document. *)
Definition topUp (existing : Entry) (entry : EntryData) : EntryModel.Modified :=
  {| EntryModel.set_amount := (amount existing + e_amount entry)%Q;
     EntryModel.set_message :=
       if negb (e_message entry =? "") then Some (e_message entry) else None |}.

(** The second half of the [try] block, after [findOne] has answered. *)
Definition applyEntry (entry : EntryData) (existing : option Entry) : M unit :=
  match existing with
  | Some ex => EntryModel.save ex (topUp ex entry)
  | None => EntryModel.create entry
  end.

(** The [try] block of [addEntry]. *)
Definition addEntry_try (entry : EntryData) : M unit :=
  existing <- EntryModel.findOne (e_stripeCustomerID entry) ;;
  applyEntry entry existing.

Definition addEntry (entry : EntryData) : M unit :=
  try_catch (addEntry_try entry) (fun _ => ret tt).

End LeaderboardService.

(** ** The earlier [leaderboardService.js] (ranking by amount)

    The variant of the service that ranks by amount; its collection holds
    documents of its own schema. *)

Module Legacy.

Record Entry := {
  name : string;
  amount : Q;
  stripeCustomerID : string;
  link : string;
  message : string
}.

(** [Entry.find().sort({ amount: -1 }).lean()] on the collection [coll];
    [fault] tells whether the round trip throws. *)
Definition find_sort_amount (coll : list Entry) (fault : bool)
  : Error + list Entry :=
  if fault then inl StorageError
  else inr (sortDesc amount Qle_bool coll).

Definition getLeaderboard (coll : list Entry) (fault : bool) : list Entry :=
  match find_sort_amount coll fault with
  | inr found => found
  | inl _ => []
  end.

End Legacy.

(** ** What one call can do to the store *)

(** The effect of [addEntry entry] at time [t]: nothing (an exception was
    swallowed), a top-up of the document found, or one insert. *)
Inductive ledgerStep (entry : EntryData) (t : Z) (s : Store) : Store -> Prop :=
| ledger_kept : ledgerStep entry t s s
| ledger_topUp ex :
    find (EntryModel.matches (e_stripeCustomerID entry)) (entries s) = Some ex ->
    ledgerStep entry t s
      (EntryModel.updateOne (_id ex) (LeaderboardService.topUp ex entry) s)
| ledger_create nm loc pos cid :
    find (EntryModel.matches (e_stripeCustomerID entry)) (entries s) = None ->
    EntryModel.required "name" (e_name entry) = inr nm ->
    EntryModel.required "locationLabel" (e_locationLabel entry) = inr loc ->
    EntryModel.castPosition (e_position entry) = inr pos ->
    e_stripeCustomerID entry = Some cid ->
    ledgerStep entry t s
      (EntryModel.insertOne
         {| _id := nextId s; name := nm; amount := e_amount entry;
            message := e_message entry; locationLabel := loc;
            position := Some pos; createdAt := t;
            stripeCustomerID := cid |} s).

(** The effect of step 3 for [eventId]: nothing, or one insert of an
    identifier that was not there. *)
Inductive recordStep (eventId : string) (s : Store) : Store -> Prop :=
| record_kept : recordStep eventId s s
| record_insert :
    ~ In eventId (processedEvents s) ->
    eventId <> "" ->
    recordStep eventId s (ProcessedEventModel.insertOne eventId s).

(** ** [index.js]: the event gateway *)

Record Metadata := {
  md_name : option string;
  md_stripeCustomerID : option string;
  md_locationLabel : option string;
  md_lat : option string;
  md_lng : option string;
  md_message : option string
}.

(** [event.data.object] of a checkout session. *)
Record Session := {
  amount_total : Z;
  metadata : Metadata
}.

Record StripeEvent := {
  ev_id : string;
  ev_type : string;
  data_object : Session
}.

Record Request := {
  req_body : string;
  stripe_signature : option string
}.

Inductive Body :=
| Text (s : string)
| JsonRows (rows : list LeaderboardService.Row)
| JsonMessage (msg : string).

Record Response := {
  status : nat;
  body : Body
}.

(** One inbound callback: the request, the fault plan of its storage calls
    and the clock of the process that handles it. *)
Record Delivery := {
  d_request : Request;
  d_faults : list bool;
  d_time : Z
}.

Definition world (s : Store) (plan : list bool) (t : Z) : World :=
  {| store := s; faults := plan; now := t |}.

Module Gateway.

Section Provider.

(** [process.env.STRIPE_WEBHOOK_SECRET] *)
Variable STRIPE_WEBHOOK_SECRET : option string.

(** [stripe.webhooks.constructEvent(body, sig, secret)]: the decoded event,
    or the message of the error it throws. *)
Variable constructEvent :
  string -> option string -> option string -> string + StripeEvent.

(** [parseFloat]; [None] is [NaN]. *)
Variable parseFloat : string -> option Q.

(** The [entryData] the webhook builds from a completed session. *)
Definition entryDataOf (session : Session) : EntryData :=
  let metadata := metadata session in
  {| e_name := md_name metadata;
     e_amount := (inject_Z (amount_total session) / 100)%Q;
     e_stripeCustomerID := md_stripeCustomerID metadata;
     e_locationLabel := md_locationLabel metadata;
     e_message := or_empty (md_message metadata);
     e_position :=
       if truthy (md_lat metadata) && truthy (md_lng metadata)
       then Some {| p_type := "Point";
                    p_coordinates := [parseFloat (or_empty (md_lng metadata));
                                      parseFloat (or_empty (md_lat metadata))] |}
       else None |}.

(** The dedup check; [Some r] is the early [return r]. *)
Definition dedupCheck (event : StripeEvent) : M (option Response) :=
  try_catch
    (existing <- ProcessedEventModel.findOne (ev_id event) ;;
     match existing with
     | Some _ => ret (Some {| status := 200;
                              body := Text "Event already processed" |})
     | None => ret None
     end)
    (fun _ => ret (Some {| status := 500;
                           body := Text "Internal Server Error" |})).

(** Step 2: the ledger mutation of a [checkout.session.completed] event. *)
Definition handleEvent (event : StripeEvent) : M unit :=
  if ev_type event =? "checkout.session.completed"
  then
    try_catch
      (LeaderboardService.addEntry (entryDataOf (data_object event)))
      (fun _ => ret tt)
  else ret tt.

(** Step 3: mark as processed. *)
Definition markProcessed (event : StripeEvent) : M unit :=
  try_catch (ProcessedEventModel.create (ev_id event)) (fun _ => ret tt).

(** [app.post('/webhook', ...)] *)
Definition webhook (req : Request) : M Response :=
  match constructEvent (req_body req) (stripe_signature req)
                       STRIPE_WEBHOOK_SECRET with
  | inl msg =>
      ret {| status := 400; body := Text ("Webhook Error: " ++ msg) |}
  | inr event =>
      early <- dedupCheck event ;;
      match early with
      | Some r => ret r
      | None =>
          handleEvent event ;;
          markProcessed event ;;
          ret {| status := 200; body := Text "Event received" |}
      end
  end.

(** [app.get('/api/leaderboard', ...)] *)
Definition api_leaderboard : M Response :=
  try_catch
    (list <- LeaderboardService.getLeaderboard ;;
     ret {| status := 200; body := JsonRows list |})
    (fun _ => ret {| status := 500;
                     body := JsonMessage "Error fetching leaderboard" |}).

(** *** Running the handlers against a store *)

(** The response the provider sees ([None]: the handler's promise rejected
    and no response was sent) and the store the callback leaves. *)
Definition deliver (d : Delivery) (s : Store) : option Response * Store :=
  match webhook (d_request d) (world s (d_faults d) (d_time d)) with
  | (inr r, w) => (Some r, store w)
  | (inl _, w) => (None, store w)
  end.

(** Callbacks handled one after the other. *)
Fixpoint deliverAll (ds : list Delivery) (s : Store) : Store :=
  match ds with
  | [] => s
  | d :: ds' => deliverAll ds' (snd (deliver d s))
  end.

(** One read of the public route. *)
Definition readLeaderboard (s : Store) (plan : list bool) (t : Z)
  : option Response :=
  match api_leaderboard (world s plan t) with
  | (inr r, _) => Some r
  | (inl _, _) => None
  end.

(** The outcomes of one delivery. *)
Inductive outcome (d : Delivery) (s : Store) : option Response -> Store -> Prop :=
| rejected msg :
    constructEvent (req_body (d_request d)) (stripe_signature (d_request d))
                   STRIPE_WEBHOOK_SECRET = inl msg ->
    outcome d s (Some {| status := 400; body := Text ("Webhook Error: " ++ msg) |}) s
| lookup_failed event :
    constructEvent (req_body (d_request d)) (stripe_signature (d_request d))
                   STRIPE_WEBHOOK_SECRET = inr event ->
    hd false (d_faults d) = true ->
    outcome d s (Some {| status := 500; body := Text "Internal Server Error" |}) s
| already_seen event :
    constructEvent (req_body (d_request d)) (stripe_signature (d_request d))
                   STRIPE_WEBHOOK_SECRET = inr event ->
    hd false (d_faults d) = false ->
    In (ev_id event) (processedEvents s) ->
    outcome d s (Some {| status := 200; body := Text "Event already processed" |}) s
| handled event s1 s' :
    constructEvent (req_body (d_request d)) (stripe_signature (d_request d))
                   STRIPE_WEBHOOK_SECRET = inr event ->
    hd false (d_faults d) = false ->
    ~ In (ev_id event) (processedEvents s) ->
    (if ev_type event =? "checkout.session.completed"
     then ledgerStep (entryDataOf (data_object event)) (d_time d) s s1
     else s1 = s) ->
    recordStep (ev_id event) s1 s' ->
    outcome d s (Some {| status := 200; body := Text "Event received" |}) s'.

End Provider.

End Gateway.

Import Gateway.

(** ** Views of the ledger *)

(** The unique indexes of the two collections, and [_id]s handed out once. *)
Record wf (s : Store) : Prop := {
  wf_payers : NoDup (map stripeCustomerID (entries s));
  wf_ids : NoDup (map _id (entries s));
  wf_fresh : Forall (fun d => _id d < nextId s)%nat (entries s);
  wf_events : NoDup (processedEvents s)
}.

(** The entry of a payer. *)
Definition entryOf (k : string) (s : Store) : option Entry :=
  find (EntryModel.matches (Some k)) (entries s).

(** The running total of a payer; nothing paid is [0]. *)
Definition totalOf (k : string) (s : Store) : Q :=
  match entryOf k s with
  | Some d => amount d
  | None => 0%Q
  end.


(** The fields [Entry.create] insists on are there. *)
Definition creatable (entry : EntryData) : bool :=
  truthy (e_name entry) && truthy (e_locationLabel entry)
  && truthy (e_stripeCustomerID entry)
  && match e_position entry with
     | None => true
     | Some p => (p_type p =? "Point")
                 && match EntryModel.castNumbers (p_coordinates p) with
                    | Some _ => true
                    | None => false
                    end
     end.

(** The [position] a creatable entry is stored with. *)
Definition positionOf (entry : EntryData) : Position :=
  {| pos_type := "Point";
     coordinates :=
       match e_position entry with
       | Some p => EntryModel.castNumbers (p_coordinates p)
       | None => None
       end |}.

(** The document [Entry.create] inserts for a creatable entry, under the
    [_id] and the [createdAt] it is given. *)
Definition documentOf (entry : EntryData) (id : nat) (t : Z) : Entry :=
  {| _id := id;
     name := or_empty (e_name entry);
     amount := e_amount entry;
     message := e_message entry;
     locationLabel := or_empty (e_locationLabel entry);
     position := Some (positionOf entry);
     createdAt := t;
     stripeCustomerID := or_empty (e_stripeCustomerID entry) |}.

(** ** Overlapping [addEntry] calls

    Between its two [await]s a call holds the document [findOne] gave it;
    other calls may run their own storage calls in that gap. *)

Module Interleaving.

Inductive Call :=
| Start (entry : EntryData)
| Found (entry : EntryData) (existing : option Entry)
| Finished.

(** Run a call up to its next [await]. An exception ends the call in the
    [catch] of [addEntry]. *)
Definition step (c : Call) : M Call :=
  match c with
  | Start entry =>
      try_catch
        (existing <- EntryModel.findOne (e_stripeCustomerID entry) ;;
         ret (Found entry existing))
        (fun _ => ret Finished)
  | Found entry existing =>
      try_catch
        (LeaderboardService.applyEntry entry existing ;;
         ret Finished)
        (fun _ => ret Finished)
  | Finished => ret Finished
  end.

Inductive Who := A | B.

(** Two calls in flight; the schedule says whose storage call is served
    next. *)
Fixpoint run (schedule : list Who) (a b : Call) : M (Call * Call) :=
  match schedule with
  | [] => ret (a, b)
  | A :: rest => a' <- step a ;; run rest a' b
  | B :: rest => b' <- step b ;; run rest a b'
  end.

(** The store two calls leave under a schedule, no storage call failing. *)
Definition after (schedule : list Who) (ea eb : EntryData) (s : Store) (t : Z)
  : Store :=
  store (snd (run schedule (Start ea) (Start eb)
                  {| store := s; faults := []; now := t |})).

End Interleaving.

(** Every document of [s] is still in [s'], under the same [_id] and payer,
    with a total that is not smaller. *)
Definition grows (s s' : Store) : Prop :=
  forall x, In x (entries s) ->
    exists x', In x' (entries s') /\ _id x' = _id x
               /\ stripeCustomerID x' = stripeCustomerID x
               /\ (amount x <= amount x')%Q.

(** The document [d] with another total. *)
Definition withAmount (q : Q) (d : Entry) : Entry :=
  {| _id := _id d;
     name := name d;
     amount := q;
     message := message d;
     locationLabel := locationLabel d;
     position := position d;
     createdAt := createdAt d;
     stripeCustomerID := stripeCustomerID d |}.

(** Are ties of [amount] between neighbours of a ranking broken by the
    payer identity, in the order [inOrder] of the identities? *)
Fixpoint tiesBrokenByPayer (inOrder : string -> string -> bool)
         (ranking : list Legacy.Entry) : bool :=
  match ranking with
  | x :: rest =>
      match rest with
      | y :: _ =>
          (negb (Qeq_bool (Legacy.amount x) (Legacy.amount y))
           || inOrder (Legacy.stripeCustomerID x) (Legacy.stripeCustomerID y))
          && tiesBrokenByPayer inOrder rest
      | [] => true
      end
  | [] => true
  end.

(** ** Sample data *)

Module Sample.

Definition legacyEntry (payer : string) (total : Q) : Legacy.Entry :=
  {| Legacy.name := payer; Legacy.amount := total;
     Legacy.stripeCustomerID := payer; Legacy.link := "";
     Legacy.message := "" |}.

Definition A50 : Legacy.Entry := legacyEntry "A" 50%Q.
Definition B30 : Legacy.Entry := legacyEntry "B" 30%Q.
Definition C80 : Legacy.Entry := legacyEntry "C" 80%Q.

(** Two more payers with the total of [A50]. *)
Definition B50 : Legacy.Entry := legacyEntry "B" 50%Q.
Definition C50 : Legacy.Entry := legacyEntry "C" 50%Q.

Definition secret : option string := Some "whsec_test".

Definition session (payer who place la ln msg : string) (cents : Z) : Session :=
  {| amount_total := cents;
     metadata := {| md_name := Some who;
                    md_stripeCustomerID := Some payer;
                    md_locationLabel := Some place;
                    md_lat := Some la;
                    md_lng := Some ln;
                    md_message := Some msg |} |}.

(** [E1] creates the entry of [cus_1]; [E2] is a second payment of the same
    payer, from elsewhere and under another name. *)
Definition E1 : StripeEvent :=
  {| ev_id := "evt_1"; ev_type := "checkout.session.completed";
     data_object := session "cus_1" "Ada" "London" "51.5" "-0.12" "hello" 1000 |}.

Definition E2 : StripeEvent :=
  {| ev_id := "evt_2"; ev_type := "checkout.session.completed";
     data_object := session "cus_1" "Bob" "Rome" "41.9" "12.5" "" 500 |}.

(** A stand-in for the provider's library: the signature header ["ok"]
    verifies, and the body names the event. *)
Definition constructEvent (body : string) (sig secret : option string)
  : string + StripeEvent :=
  if negb (or_empty sig =? "ok")
  then inl "No signatures found matching the expected signature for payload"
  else if body =? "E1" then inr E1
  else if body =? "E2" then inr E2
  else inl "Unexpected token in JSON".

Definition parseFloat (s : string) : option Q :=
  if s =? "51.5" then Some (515 # 10)%Q
  else if s =? "-0.12" then Some (-12 # 100)%Q
  else if s =? "41.9" then Some (419 # 10)%Q
  else if s =? "12.5" then Some (125 # 10)%Q
  else None.

Definition request (body : string) : Request :=
  {| req_body := body; stripe_signature := Some "ok" |}.

Definition delivery (body : string) (plan : list bool) (t : Z) : Delivery :=
  {| d_request := request body; d_faults := plan; d_time := t |}.

(** The store after [E1] was delivered to the empty database at time 100. *)
Definition afterE1 : Store :=
  snd (deliver secret constructEvent parseFloat (delivery "E1" [] 100)
               emptyStore).

(** The entry of [cus_1] in that store. *)
Definition ada : Entry :=
  {| _id := 0; name := "Ada"; amount := (inject_Z 1000 / 100)%Q;
     message := "hello"; locationLabel := "London";
     position := Some {| pos_type := "Point";
                         coordinates := Some [(-12 # 100)%Q; (515 # 10)%Q] |};
     createdAt := 100; stripeCustomerID := "cus_1" |}.

(** [entryData] of a payment by the payer [cus_1]. *)
Definition pays (cents : Z) : EntryData :=
  entryDataOf parseFloat
    (session "cus_1" "Ada" "London" "51.5" "-0.12" "" cents).

End Sample.

(** ** What a delivery leaves alone *)

(** An entry without its total and its message: its identity, its display
    fields and its creation date. *)
Definition frozen (d : Entry)
  : nat * string * string * string * option Position * Z :=
  (_id d, stripeCustomerID d, name d, locationLabel d, position d, createdAt d).

(** What the schema and the webhook give every stored entry: the required
    strings are there, and the position is a point without [coordinates] or
    with a pair of them. *)
Definition wellFormed (d : Entry) : Prop :=
  name d <> "" /\ locationLabel d <> "" /\ stripeCustomerID d <> ""
  /\ exists cs,
       position d = Some {| pos_type := "Point"; coordinates := cs |}
       /\ (cs = None \/ exists ln la, cs = Some [ln; la]).

(** The ranking of the current service: the entries in descending order of
    [createdAt]. *)
Definition ranked (s : Store) : list Entry :=
  sortDesc createdAt Z.leb (entries s).

(** ** [pages/index.tsx]: what the page does with the leaderboard *)

Module Frontend.

(** [LeaderboardEntry], the fields the page reads of a row. *)
Record LeaderboardEntry := {
  name : string;
  amount : Q;
  message : option string;
  locationLabel : option string;
  lat : option Q;
  lng : option Q
}.

(** [res.ok] *)
Definition ok (r : Response) : bool :=
  (200 <=? status r)%nat && (status r <=? 299)%nat.

(** What [fetchLeaderboard] hands to [setLeaderboard], if it gets that far:
    a rejected [fetch] ([None]), a status that is not [ok] and a body that
    is not JSON all end in the [catch], which only logs. *)
Definition fetchLeaderboard (res : option Response) : option Body :=
  match res with
  | None => None
  | Some r =>
      if negb (ok r) then None
      else match body r with
           | Text _ => None
           | data => Some data
           end
  end.

(** [Location] of [components/Globe.tsx]. *)
Record Location := {
  loc_lat : Q;
  loc_lng : Q;
  owner : string;
  loc_locationLabel : option string
}.

(** One step of [leaderboard.map(...).filter(...)]: the pin of an entry
    whose [lat] and [lng] are both numbers. *)
Definition pinOf (entry : LeaderboardEntry) : option Location :=
  match lat entry, lng entry with
  | Some la, Some ln =>
      Some {| loc_lat := la; loc_lng := ln; owner := name entry;
              loc_locationLabel := locationLabel entry |}
  | _, _ => None
  end.

(** [globeData] *)
Fixpoint globeData (leaderboard : list LeaderboardEntry) : list Location :=
  match leaderboard with
  | [] => []
  | entry :: rest =>
      match pinOf entry with
      | Some pin => pin :: globeData rest
      | None => globeData rest
      end
  end.

(** The banner over the form: the location and the name of
    [leaderboard[0]], when both are there and not empty. *)
Definition banner (leaderboard : list LeaderboardEntry)
  : option (string * string) :=
  match leaderboard with
  | [] => None
  | first :: _ =>
      if truthy (locationLabel first) && negb (name first =? "")
      then Some (or_empty (locationLabel first), name first)
      else None
  end.

(** [globeIframeRef.current && globeIframeRef.current.contentWindow]: the
    ref is made by [useRef(null)] and handed to no element of the page, so
    its [current] stays [null]. *)
Definition globeIframeRef : bool := false.

(** The [UPDATE_GLOBE_LOCATION] message the effect on the leaderboard posts:
    the coordinates of [leaderboard[0]], the current owner, once a frame has
    said it listens and when the ref holds a frame ([frameThere]; the page
    runs the effect with [globeIframeRef]). *)
Definition globeUpdate (leaderboard : list LeaderboardEntry)
           (isGlobeListenerReady frameThere : bool) : option (Q * Q) :=
  match leaderboard with
  | [] => None
  | currentOwner :: _ =>
      if isGlobeListenerReady && frameThere
      then match lat currentOwner, lng currentOwner with
           | Some la, Some ln => Some (la, ln)
           | _, _ => None
           end
      else None
  end.

End Frontend.

(** A row as the page has it after [res.json()]: a key whose value was
    [undefined] is not in the JSON. *)
Definition received (r : LeaderboardService.Row) : Frontend.LeaderboardEntry :=
  {| Frontend.name := name (LeaderboardService.row_entry r);
     Frontend.amount := amount (LeaderboardService.row_entry r);
     Frontend.message := Some (message (LeaderboardService.row_entry r));
     Frontend.locationLabel :=
       Some (locationLabel (LeaderboardService.row_entry r));
     Frontend.lat := LeaderboardService.lat r;
     Frontend.lng := LeaderboardService.lng r |}.

(** The leaderboard the page holds after a fetch that got the rows of a
    store, no storage call failing. *)
Definition pageOf (s : Store) : list Frontend.LeaderboardEntry :=
  map (fun d => received (LeaderboardService.toRow d)) (ranked s).

(** What the page shows of an entry apart from its total and its message. *)
Definition shown (e : Frontend.LeaderboardEntry)
  : string * option string * option Q * option Q :=
  (Frontend.name e, Frontend.locationLabel e, Frontend.lat e, Frontend.lng e).

(** ** The earlier [addEntry] (ranking by amount)

    The earlier service on its own collection, with the faults of its
    storage calls given as a plan, as before. *)

Module LegacyService.

(** The object the earlier webhook hands to [addEntry]. *)
Record EntryData := {
  e_name : option string;
  e_amount : Q;
  e_stripeCustomerID : option string;
  e_link : string;
  e_message : string
}.

(** Does a document answer the filter [{ stripeCustomerID: key }]? *)
Definition matches (key : option string) (d : Legacy.Entry) : bool :=
  match key with
  | Some k => Legacy.stripeCustomerID d =? k
  | None => false
  end.

(** The document [Entry.create] would insert: [name] and
    [stripeCustomerID] are [required]. *)
Definition validate (entry : EntryData) : option Legacy.Entry :=
  match e_name entry, e_stripeCustomerID entry with
  | Some n, Some c =>
      if (n =? "") || (c =? "") then None
      else Some {| Legacy.name := n; Legacy.amount := e_amount entry;
                   Legacy.stripeCustomerID := c; Legacy.link := e_link entry;
                   Legacy.message := e_message entry |}
  | _, _ => None
  end.

(** The top-up branch on the loaded document. *)
Definition topUp (existing : Legacy.Entry) (entry : EntryData) : Legacy.Entry :=
  {| Legacy.name := Legacy.name existing;
     Legacy.amount := (Legacy.amount existing + e_amount entry)%Q;
     Legacy.stripeCustomerID := Legacy.stripeCustomerID existing;
     Legacy.link := if negb (e_link entry =? "") then e_link entry
                    else Legacy.link existing;
     Legacy.message := Legacy.message existing |}.

(** [existing.save()]: the document [findOne] returned, the first that
    answers the filter, is replaced by its updated state. *)
Fixpoint save (key : option string) (updated : Legacy.Entry)
         (coll : list Legacy.Entry) : list Legacy.Entry :=
  match coll with
  | [] => []
  | d :: rest =>
      if matches key d then updated :: rest else d :: save key updated rest
  end.

(** [addEntry]: the collection it leaves and what is left of the fault
    plan. Every exception ends in its [catch]. *)
Definition addEntry (entry : EntryData) (coll : list Legacy.Entry)
           (plan : list bool) : list Legacy.Entry * list bool :=
  if hd false plan then (coll, tl plan)
  else
    match find (matches (e_stripeCustomerID entry)) coll with
    | Some existing =>
        if hd false (tl plan) then (coll, tl (tl plan))
        else (save (e_stripeCustomerID entry) (topUp existing entry) coll,
              tl (tl plan))
    | None =>
        match validate entry with
        | None => (coll, tl plan)
        | Some doc =>
            if hd false (tl plan) then (coll, tl (tl plan))
            else if existsb (matches (e_stripeCustomerID entry)) coll
                 then (coll, tl (tl plan))
                 else (coll ++ [doc], tl (tl plan))
        end
    end.

(** The place of a payer in a ranking, counted from 0. *)
Fixpoint rankOf (k : string) (ranking : list Legacy.Entry) : option nat :=
  match ranking with
  | [] => None
  | d :: rest =>
      if Legacy.stripeCustomerID d =? k then Some 0%nat
      else option_map S (rankOf k rest)
  end.

End LegacyService.

(** How many documents of [l] have a total larger than [q]. *)
Definition above (q : Q) (l : list Legacy.Entry) : nat :=
  length (filter (fun y => negb (Qle_bool (Legacy.amount y) q)) l).

(** The place a payer gets in the amount ranking, read off the collection:
    before it stand the later documents with a larger total and the earlier
    ones with a total that is not smaller. *)
Fixpoint place (k : string) (coll : list Legacy.Entry) : option nat :=
  match coll with
  | [] => None
  | a :: rest =>
      if LegacyService.matches (Some k) a
      then Some (above (Legacy.amount a) rest)
      else
        match find (LegacyService.matches (Some k)) rest with
        | Some x =>
            option_map
              (fun i => if Qle_bool (Legacy.amount x) (Legacy.amount a)
                        then S i else i)
              (place k rest)
        | None => None
        end
  end.

(** ** More sample data *)

Module MoreSamples.

(** An event of a type the webhook does not handle. *)
Definition refunded : StripeEvent :=
  {| ev_id := "evt_3"; ev_type := "charge.refunded";
     data_object := Sample.session "cus_1" "Ada" "London" "51.5" "-0.12" "" 1000 |}.

(** A completed checkout whose metadata has no name. *)
Definition nameless : StripeEvent :=
  {| ev_id := "evt_4"; ev_type := "checkout.session.completed";
     data_object :=
       {| amount_total := 700;
          metadata := {| md_name := None;
                         md_stripeCustomerID := Some "cus_9";
                         md_locationLabel := Some "Oslo";
                         md_lat := None; md_lng := None;
                         md_message := None |} |} |}.

(** The first payment of another payer, [cus_2], submitted without
    coordinates. *)
Definition E5 : StripeEvent :=
  {| ev_id := "evt_5"; ev_type := "checkout.session.completed";
     data_object := Sample.session "cus_2" "Grace" "Paris" "" "" "hi" 2500 |}.

(** A third payment of [cus_1], of 7. *)
Definition E6 : StripeEvent :=
  {| ev_id := "evt_6"; ev_type := "checkout.session.completed";
     data_object := Sample.session "cus_1" "Ada" "London" "51.5" "-0.12" "" 700 |}.

(** A payment of 5 by [cus_9], the payer of the checkout without a name,
    with all the schema requires. *)
Definition E7 : StripeEvent :=
  {| ev_id := "evt_7"; ev_type := "checkout.session.completed";
     data_object := Sample.session "cus_9" "Nils" "Oslo" "" "" "" 500 |}.

(** The provider's library, knowing these events besides. *)
Definition constructEvent (body : string) (sig secret : option string)
  : string + StripeEvent :=
  if negb (or_empty sig =? "ok")
  then inl "No signatures found matching the expected signature for payload"
  else if body =? "E3" then inr refunded
  else if body =? "E4" then inr nameless
  else if body =? "E5" then inr E5
  else if body =? "E6" then inr E6
  else if body =? "E7" then inr E7
  else Sample.constructEvent body sig secret.

(** A payment of 60 by the payer [B], with a link, for the earlier
    service. *)
Definition paysB : LegacyService.EntryData :=
  {| LegacyService.e_name := Some "B";
     LegacyService.e_amount := 60%Q;
     LegacyService.e_stripeCustomerID := Some "B";
     LegacyService.e_link := "https://b.example";
     LegacyService.e_message := "more" |}.

(** The pin of the entry [E1] creates. *)
Definition adaPin : Frontend.Location :=
  {| Frontend.loc_lat := (515 # 10)%Q; Frontend.loc_lng := (-12 # 100)%Q;
     Frontend.owner := "Ada"; Frontend.loc_locationLabel := Some "London" |}.

End MoreSamples.

(** ** Overlapping deliveries

    A callback in flight, between the [await]s of the handler and of
    [addEntry]. The event is verified before the first [await]. *)

Module Overlap.

Section Provider.

Variable parseFloat : string -> option Q.

Inductive Handler :=
| Received (event : StripeEvent)
| Checked (event : StripeEvent)
| Loaded (event : StripeEvent) (existing : option Entry)
| Mutated (event : StripeEvent)
| Answered (r : Response).

(** Run a handler up to its next [await]: the dedup lookup, the [findOne]
    of [addEntry], its write, the insert of the record. *)
Definition step (h : Handler) : M Handler :=
  match h with
  | Received event =>
      try_catch
        (existing <- ProcessedEventModel.findOne (ev_id event) ;;
         match existing with
         | Some _ =>
             ret (Answered {| status := 200;
                              body := Text "Event already processed" |})
         | None =>
             ret (if ev_type event =? "checkout.session.completed"
                  then Checked event else Mutated event)
         end)
        (fun _ => ret (Answered {| status := 500;
                                   body := Text "Internal Server Error" |}))
  | Checked event =>
      try_catch
        (existing <- EntryModel.findOne
                       (e_stripeCustomerID
                          (Gateway.entryDataOf parseFloat (data_object event))) ;;
         ret (Loaded event existing))
        (fun _ => ret (Mutated event))
  | Loaded event existing =>
      try_catch
        (LeaderboardService.applyEntry
           (Gateway.entryDataOf parseFloat (data_object event)) existing ;;
         ret (Mutated event))
        (fun _ => ret (Mutated event))
  | Mutated event =>
      Gateway.markProcessed event ;;
      ret (Answered {| status := 200; body := Text "Event received" |})
  | Answered r => ret (Answered r)
  end.

(** The event a handler in flight is working on. *)
Definition eventOf (h : Handler) : option StripeEvent :=
  match h with
  | Received event | Checked event | Loaded event _ | Mutated event =>
      Some event
  | Answered _ => None
  end.

(** Two handlers in flight; the schedule says whose storage call is served
    next. *)
Fixpoint run (schedule : list Interleaving.Who) (a b : Handler)
  : M (Handler * Handler) :=
  match schedule with
  | [] => ret (a, b)
  | Interleaving.A :: rest => a' <- step a ;; run rest a' b
  | Interleaving.B :: rest => b' <- step b ;; run rest a b'
  end.

(** One handler run to its end. *)
Definition alone (event : StripeEvent) : M Handler :=
  h1 <- step (Received event) ;;
  h2 <- step h1 ;;
  h3 <- step h2 ;;
  step h3.

End Provider.

End Overlap.

(** ** The stores the gateway can produce

    Handlers run side by side: a callback that verifies starts a handler,
    and any handler in flight may have its next storage call served, at any
    time and with or without a fault, whatever the other handlers are in
    the middle of. *)

Section Reachability.

Variable STRIPE_WEBHOOK_SECRET : option string.
Variable constructEvent :
  string -> option string -> option string -> string + StripeEvent.
Variable parseFloat : string -> option Q.

(** The shared store and the handlers in flight. *)
Inductive running : Store -> list Overlap.Handler -> Prop :=
| running_start : running emptyStore []
| running_callback s pool req event :
    running s pool ->
    constructEvent (req_body req) (stripe_signature req)
                   STRIPE_WEBHOOK_SECRET = inr event ->
    running s (Overlap.Received event :: pool)
| running_served s before h after plan t h' w' :
    running s (before ++ h :: after) ->
    Overlap.step parseFloat h (world s plan t) = (inr h', w') ->
    running (store w') (before ++ h' :: after).

(** The stores the gateway can produce from the empty database. *)
Definition reachable (s : Store) : Prop := exists pool, running s pool.

End Reachability.

(** * Properties *)

(** ** The service calls, one by one *)

Ltac run_m :=
  cbv beta iota delta [bind ret throw lift try_catch getStore putStore
                       Date_now world] in *; simpl in *.

Lemma roundTrip_no_faults s t :
  roundTrip (world s [] t) = (inr tt, world s [] t).
Proof. reflexivity. Qed.

Lemma roundTrip_ok s plan t :
  roundTrip (world s (false :: plan) t) = (inr tt, world s plan t).
Proof. reflexivity. Qed.

Lemma roundTrip_fault s plan t :
  roundTrip (world s (true :: plan) t) = (inl StorageError, world s plan t).
Proof. reflexivity. Qed.

(** A round trip leaves the store and the clock alone. *)
Lemma roundTrip_store w :
  store (snd (roundTrip w)) = store w /\ now (snd (roundTrip w)) = now w.
Proof.
  unfold roundTrip. destruct (faults w) as [|[] fs]; simpl; auto.
Qed.

Lemma existsb_payer_false cid l :
  existsb (fun d => stripeCustomerID d =? cid) l = false ->
  ~ In cid (map stripeCustomerID l).
Proof.
  induction l as [|d l IH]; simpl; intros H; [tauto|].
  apply orb_false_iff in H. destruct H as [Hd Hl].
  intros [E|E]; [|exact (IH Hl E)].
  subst cid. rewrite String.eqb_refl in Hd. discriminate.
Qed.

Lemma existsb_event_false eventId l :
  existsb (fun d => d =? eventId) l = false -> ~ In eventId l.
Proof.
  induction l as [|d l IH]; simpl; intros H; [tauto|].
  apply orb_false_iff in H. destruct H as [Hd Hl].
  intros [E|E]; [|exact (IH Hl E)].
  subst d. rewrite String.eqb_refl in Hd. discriminate.
Qed.

Lemma required_inr path v s :
  EntryModel.required path v = inr s -> v = Some s /\ s <> "".
Proof.
  unfold EntryModel.required. destruct v as [x|]; [|discriminate].
  destruct (x =? "") eqn:E; [discriminate|].
  intros H. inversion H. subst. split; [reflexivity|].
  intros ->. discriminate.
Qed.

(** [addEntry] never throws: its [catch] takes every exception. *)
Lemma addEntry_never_throws entry w :
  fst (LeaderboardService.addEntry entry w) = inr tt.
Proof.
  unfold LeaderboardService.addEntry, try_catch.
  destruct (LeaderboardService.addEntry_try entry w) as [[e|[]] w']; reflexivity.
Qed.

(** [addEntry] keeps the clock and changes the store by one ledger step. *)
Lemma addEntry_ledgerStep entry w :
  ledgerStep entry (now w) (store w)
             (store (snd (LeaderboardService.addEntry entry w)))
  /\ now (snd (LeaderboardService.addEntry entry w)) = now w.
Proof.
  destruct w as [s fs t].
  unfold LeaderboardService.addEntry, LeaderboardService.addEntry_try,
    EntryModel.findOne, roundTrip.
  run_m.
  destruct fs as [|[] fs]; simpl; try solve [split; [apply ledger_kept|reflexivity]].
  - destruct (find _ (entries s)) as [ex|] eqn:F; simpl.
    + split; [|reflexivity]. now apply ledger_topUp.
    + unfold EntryModel.create. run_m.
      destruct (EntryModel.required "name" _) as [?|nm] eqn:Hn; simpl;
        try solve [split; [apply ledger_kept|reflexivity]].
      destruct (EntryModel.required "locationLabel" _) as [?|loc] eqn:Hl; simpl;
        try solve [split; [apply ledger_kept|reflexivity]].
      destruct (EntryModel.castPosition _) as [?|pos] eqn:Hp; simpl;
        try solve [split; [apply ledger_kept|reflexivity]].
      destruct (EntryModel.required "stripeCustomerID" _) as [?|cid] eqn:Hc; simpl;
        try solve [split; [apply ledger_kept|reflexivity]].
      destruct (existsb _ (entries s)) eqn:Hx; simpl;
        try solve [split; [apply ledger_kept|reflexivity]].
      split; [|reflexivity].
      apply ledger_create; auto. now apply required_inr in Hc.
  - destruct (find _ (entries s)) as [ex|] eqn:F; simpl.
    + destruct fs as [|[] fs]; simpl; try solve [split; [apply ledger_kept|reflexivity]];
        (split; [|reflexivity]); now apply ledger_topUp.
    + unfold EntryModel.create, roundTrip. run_m.
      destruct (EntryModel.required "name" _) as [?|nm] eqn:Hn; simpl;
        try solve [split; [apply ledger_kept|reflexivity]].
      destruct (EntryModel.required "locationLabel" _) as [?|loc] eqn:Hl; simpl;
        try solve [split; [apply ledger_kept|reflexivity]].
      destruct (EntryModel.castPosition _) as [?|pos] eqn:Hp; simpl;
        try solve [split; [apply ledger_kept|reflexivity]].
      destruct (EntryModel.required "stripeCustomerID" _) as [?|cid] eqn:Hc; simpl;
        try solve [split; [apply ledger_kept|reflexivity]].
      destruct fs as [|[] fs]; simpl; try solve [split; [apply ledger_kept|reflexivity]];
      (destruct (existsb _ (entries s)) eqn:Hx; simpl;
        try solve [split; [apply ledger_kept|reflexivity]];
      split; [|reflexivity];
      apply ledger_create; auto; now apply required_inr in Hc).
Qed.

(** ** The unique indexes are kept *)

Lemma NoDup_snoc {A} (l : list A) (x : A) :
  NoDup l -> ~ In x l -> NoDup (l ++ [x]).
Proof.
  intros Hl Hx. apply NoDup_app; [assumption|repeat constructor; intros []|].
  intros a Ha [E|[]]. subst. contradiction.
Qed.

Lemma NoDup_map_eq {A B} (f : A -> B) (l : list A) x y :
  NoDup (map f l) -> In x l -> In y l -> f x = f y -> x = y.
Proof.
  induction l as [|a l IH]; simpl; intros Hn Hx Hy E; [contradiction|].
  inversion Hn as [|? ? Hna Hnl]; subst.
  destruct Hx as [<-|Hx], Hy as [<-|Hy]; auto.
  - exfalso. apply Hna. rewrite E. now apply in_map.
  - exfalso. apply Hna. rewrite <- E. now apply in_map.
Qed.

Lemma find_payer_none k l :
  find (EntryModel.matches (Some k)) l = None ->
  ~ In k (map stripeCustomerID l).
Proof.
  intros F Hin. apply in_map_iff in Hin. destruct Hin as [d [E Hd]].
  pose proof (find_none _ _ F d Hd) as Hm. simpl in Hm.
  rewrite E, String.eqb_refl in Hm. discriminate.
Qed.

Lemma find_payer_some key l d :
  find (EntryModel.matches key) l = Some d ->
  In d l /\ key = Some (stripeCustomerID d).
Proof.
  intros F. apply find_some in F. destruct F as [Hin Hm].
  split; [assumption|]. destruct key as [k|]; simpl in Hm; [|discriminate].
  apply String.eqb_eq in Hm. now subst.
Qed.

Lemma find_event_some eventId l x :
  find (fun d => d =? eventId) l = Some x -> In eventId l.
Proof.
  intros F. apply find_some in F. destruct F as [Hin E].
  apply String.eqb_eq in E. now subst.
Qed.

Lemma find_event_none eventId l :
  find (fun d => d =? eventId) l = None -> ~ In eventId l.
Proof.
  intros F Hin. pose proof (find_none _ _ F _ Hin) as E. simpl in E.
  rewrite String.eqb_refl in E. discriminate.
Qed.


Lemma updateOne_payers id m s :
  map stripeCustomerID (entries (EntryModel.updateOne id m s))
  = map stripeCustomerID (entries s).
Proof.
  simpl. rewrite map_map. apply map_ext. intros d.
  destruct (Nat.eqb (_id d) id); reflexivity.
Qed.

Lemma updateOne_ids id m s :
  map _id (entries (EntryModel.updateOne id m s)) = map _id (entries s).
Proof.
  simpl. rewrite map_map. apply map_ext. intros d.
  destruct (Nat.eqb (_id d) id); reflexivity.
Qed.

Lemma ledgerStep_wf entry t s s' :
  ledgerStep entry t s s' -> wf s -> wf s'.
Proof.
  intros St [Hp Hi Hf He]. destruct St as [|ex F|nm loc pos cid F Hn Hl Hpos Hc].
  - now constructor.
  - constructor.
    + now rewrite updateOne_payers.
    + now rewrite updateOne_ids.
    + simpl. apply Forall_forall. intros d Hd. apply in_map_iff in Hd.
      destruct Hd as [d0 [E Hd0]]. rewrite Forall_forall in Hf.
      specialize (Hf d0 Hd0). subst d.
      destruct (Nat.eqb (_id d0) (_id ex)); simpl; assumption.
    + assumption.
  - rewrite Hc in F. constructor; simpl.
    + rewrite map_app. simpl. apply NoDup_snoc; [assumption|].
      now apply find_payer_none.
    + rewrite map_app. simpl. apply NoDup_snoc; [assumption|].
      intros Hin. apply in_map_iff in Hin. destruct Hin as [d [E Hd]].
      rewrite Forall_forall in Hf. specialize (Hf d Hd). lia.
    + apply Forall_app. split.
      * eapply Forall_impl; [|exact Hf]. simpl. intros; lia.
      * repeat constructor.
    + assumption.
Qed.

Lemma recordStep_wf eventId s s' :
  recordStep eventId s s' -> wf s -> wf s'.
Proof.
  intros St [Hp Hi Hf He]. destruct St as [|Hn _]; constructor; simpl; auto.
  now apply NoDup_snoc.
Qed.

Lemma recordStep_entries eventId s s' :
  recordStep eventId s s' -> entries s' = entries s.
Proof. intros []; reflexivity. Qed.

(** ** Totals only grow *)

Lemma grows_refl s : grows s s.
Proof. intros x Hx. exists x. repeat split; auto. apply Qle_refl. Qed.

Lemma ledgerStep_grows entry t s s' :
  ledgerStep entry t s s' -> wf s -> (0 <= e_amount entry)%Q -> grows s s'.
Proof.
  intros St W Ha. destruct St as [|ex F|nm loc pos cid F Hn Hl Hpos Hc].
  - apply grows_refl.
  - intros x Hx. apply find_payer_some in F. destruct F as [Hex _].
    exists (if Nat.eqb (_id x) (_id ex)
            then EntryModel.applyModified (LeaderboardService.topUp ex entry) x
            else x).
    split; [simpl; apply in_map_iff; now exists x|].
    destruct (Nat.eqb (_id x) (_id ex)) eqn:E; simpl.
    + repeat split; auto. apply Nat.eqb_eq in E.
      assert (x = ex) by (eapply NoDup_map_eq; eauto using wf_ids). subst x.
      rewrite <- (Qplus_0_r (amount ex)) at 1.
      apply Qplus_le_compat; [apply Qle_refl|assumption].
    + repeat split; auto. apply Qle_refl.
  - intros x Hx. exists x. simpl. repeat split; auto.
    + apply in_or_app. now left.
    + apply Qle_refl.
Qed.

(** A document under a payer that [s] did not know carries exactly the
    amount of the entry that was added. *)
Lemma ledgerStep_new entry t s s' x' :
  ledgerStep entry t s s' ->
  In x' (entries s') ->
  ~ In (stripeCustomerID x') (map stripeCustomerID (entries s)) ->
  amount x' = e_amount entry
  /\ e_stripeCustomerID entry = Some (stripeCustomerID x')
  /\ createdAt x' = t.
Proof.
  intros St Hx Hnew. destruct St as [|ex F|nm loc pos cid F Hn Hl Hpos Hc].
  - exfalso. apply Hnew. now apply in_map.
  - exfalso. apply Hnew. rewrite <- (updateOne_payers (_id ex)
      (LeaderboardService.topUp ex entry) s). now apply in_map.
  - simpl in Hx. apply in_app_or in Hx. destruct Hx as [Hx|[<-|[]]].
    + exfalso. apply Hnew. now apply in_map.
    + simpl. auto.
Qed.

(** ** Runs in which no storage call fails *)

Lemma find_map_payer key f l :
  (forall d, stripeCustomerID (f d) = stripeCustomerID d) ->
  find (EntryModel.matches key) (map f l)
  = option_map f (find (EntryModel.matches key) l).
Proof.
  intros Hf. induction l as [|a l IH]; simpl; [reflexivity|].
  assert (E : EntryModel.matches key (f a) = EntryModel.matches key a)
    by (destruct key; simpl; [now rewrite Hf|reflexivity]).
  rewrite E. destruct (EntryModel.matches key a); simpl; auto.
Qed.

(** After the update, the payer's entry is the loaded one with the
    modified paths written. *)
Lemma entryOf_updateOne k s ex m :
  entryOf k s = Some ex ->
  entryOf k (EntryModel.updateOne (_id ex) m s)
  = Some (EntryModel.applyModified m ex).
Proof.
  unfold entryOf. intros F. simpl.
  rewrite find_map_payer by (intros d; destruct (Nat.eqb _ _); reflexivity).
  rewrite F. simpl. now rewrite Nat.eqb_refl.
Qed.

Lemma addEntry_topUp_run entry s t ex :
  find (EntryModel.matches (e_stripeCustomerID entry)) (entries s) = Some ex ->
  LeaderboardService.addEntry entry (world s [] t)
  = (inr tt, world (EntryModel.updateOne (_id ex)
                      (LeaderboardService.topUp ex entry) s) [] t).
Proof.
  intros F.
  unfold LeaderboardService.addEntry, LeaderboardService.addEntry_try,
    EntryModel.findOne, roundTrip.
  run_m. rewrite F. reflexivity.
Qed.

Lemma creatable_fields entry :
  creatable entry = true ->
  EntryModel.required "name" (e_name entry) = inr (or_empty (e_name entry))
  /\ EntryModel.required "locationLabel" (e_locationLabel entry)
     = inr (or_empty (e_locationLabel entry))
  /\ EntryModel.required "stripeCustomerID" (e_stripeCustomerID entry)
     = inr (or_empty (e_stripeCustomerID entry))
  /\ EntryModel.castPosition (e_position entry)
     = inr (positionOf entry).
Proof.
  unfold creatable, positionOf, EntryModel.required, EntryModel.castPosition, truthy.
  intros H. repeat (apply andb_true_iff in H; destruct H as [H ?]).
  destruct (e_name entry) as [n|]; [|discriminate].
  destruct (e_locationLabel entry) as [l|]; [|discriminate].
  destruct (e_stripeCustomerID entry) as [c|]; [|discriminate].
  simpl.
  destruct (n =? ""); [discriminate|].
  destruct (l =? ""); [discriminate|].
  destruct (c =? ""); [discriminate|].
  repeat split.
  destruct (e_position entry) as [p|]; [|reflexivity].
  destruct (p_type p =? "Point") eqn:E; [|discriminate]. simpl.
  apply String.eqb_eq in E.
  destruct (EntryModel.castNumbers (p_coordinates p)); [|discriminate].
  now rewrite E.
Qed.

Lemma addEntry_create_run entry s t :
  find (EntryModel.matches (e_stripeCustomerID entry)) (entries s) = None ->
  creatable entry = true ->
  LeaderboardService.addEntry entry (world s [] t)
  = (inr tt, world (EntryModel.insertOne (documentOf entry (nextId s) t) s) [] t).
Proof.
  intros F C. apply creatable_fields in C. destruct C as [Hn [Hl [Hc Hp]]].
  unfold LeaderboardService.addEntry, LeaderboardService.addEntry_try,
    EntryModel.findOne, roundTrip.
  run_m. rewrite F. simpl.
  unfold EntryModel.create, roundTrip. run_m.
  rewrite Hn, Hl, Hp, Hc. simpl.
  assert (X : existsb (fun d => stripeCustomerID d
                                =? or_empty (e_stripeCustomerID entry))
                      (entries s) = false).
  { destruct (existsb _ _) eqn:X; [|reflexivity].
    apply existsb_exists in X. destruct X as [x [Hin Hx]].
    apply required_inr in Hc. destruct Hc as [Hc _]. rewrite Hc in F.
    pose proof (find_none _ _ F x Hin) as Hm. simpl in Hm.
    rewrite Hx in Hm. discriminate. }
  rewrite X. reflexivity.
Qed.

(** ** Sorted query results *)

Section SortFacts.

Context {A K : Type} (key : A -> K) (leb : K -> K -> bool).

Hypothesis leb_total : forall x y, leb x y = true \/ leb y x = true.
Hypothesis leb_trans :
  forall x y z, leb x y = true -> leb y z = true -> leb x z = true.

#[local] Abbreviation before := (before key leb).

Lemma insertDesc_perm x l : Permutation (x :: l) (insertDesc key leb x l).
Proof.
  induction l as [|y l IH]; simpl; [reflexivity|].
  destruct (leb (key y) (key x)); [reflexivity|].
  rewrite perm_swap. now constructor.
Qed.

Lemma sortDesc_perm l : Permutation l (sortDesc key leb l).
Proof.
  induction l as [|x l IH]; simpl; [constructor|].
  rewrite <- insertDesc_perm. now constructor.
Qed.

Lemma insertDesc_sorted x l :
  StronglySorted before l -> StronglySorted before (insertDesc key leb x l).
Proof.
  induction 1 as [|y l Hs IH Hy]; simpl.
  - repeat constructor.
  - destruct (leb (key y) (key x)) eqn:E.
    + constructor; [now constructor|].
      constructor; [exact E|].
      eapply Forall_impl; [|exact Hy]. unfold before. intros z Hz.
      eapply leb_trans; eauto.
    + constructor; [exact IH|].
      assert (Hxy : before y x)
        by (destruct (leb_total (key y) (key x)); [congruence|assumption]).
      eapply Permutation_Forall; [apply insertDesc_perm|].
      now constructor.
Qed.

Lemma sortDesc_sorted l : StronglySorted before (sortDesc key leb l).
Proof.
  induction l as [|x l IH]; simpl; [constructor|].
  now apply insertDesc_sorted.
Qed.

End SortFacts.

Lemma Qle_bool_total x y : Qle_bool x y = true \/ Qle_bool y x = true.
Proof.
  destruct (Qlt_le_dec y x) as [H|H].
  - right. apply Qle_bool_iff. now apply Qlt_le_weak.
  - left. now apply Qle_bool_iff.
Qed.

Lemma Qle_bool_trans x y z :
  Qle_bool x y = true -> Qle_bool y z = true -> Qle_bool x z = true.
Proof.
  rewrite !Qle_bool_iff. apply Qle_trans.
Qed.

Lemma Zleb_total x y : Z.leb x y = true \/ Z.leb y x = true.
Proof. rewrite !Z.leb_le. lia. Qed.

Lemma Zleb_trans x y z :
  Z.leb x y = true -> Z.leb y z = true -> Z.leb x z = true.
Proof. rewrite !Z.leb_le. lia. Qed.

(** ** The webhook, case by case *)

Section GatewayFacts.

Variable secret : option string.
Variable constructEvent :
  string -> option string -> option string -> string + StripeEvent.
Variable parseFloat : string -> option Q.

#[local] Abbreviation webhook := (webhook secret constructEvent).
#[local] Abbreviation deliver := (deliver secret constructEvent parseFloat).
#[local] Abbreviation deliverAll := (deliverAll secret constructEvent parseFloat).
#[local] Abbreviation outcome := (outcome secret constructEvent parseFloat).

(** Step 3 never throws and changes the store by one record step. *)
Lemma markProcessed_recordStep event w :
  fst (markProcessed event w) = inr tt
  /\ recordStep (ev_id event) (store w) (store (snd (markProcessed event w))).
Proof.
  destruct w as [s fs t].
  unfold markProcessed, ProcessedEventModel.create, roundTrip. run_m.
  destruct (ev_id event =? "") eqn:E; simpl; [split; [reflexivity|constructor]|].
  assert (ev_id event <> "") by (intros H; rewrite H in E; discriminate).
  destruct fs as [|[] fs]; simpl.
  - destruct (existsb _ _) eqn:X; simpl.
    + split; [reflexivity|constructor].
    + split; [reflexivity|].
      apply record_insert; auto using existsb_event_false.
  - split; [reflexivity|constructor].
  - destruct (existsb _ _) eqn:X; simpl.
    + split; [reflexivity|constructor].
    + split; [reflexivity|].
      apply record_insert; auto using existsb_event_false.
Qed.

(** With no fault and a fresh, non-empty identifier, step 3 inserts. *)
Lemma markProcessed_inserts event s plan t :
  ev_id event <> "" ->
  ~ In (ev_id event) (processedEvents s) ->
  hd false plan = false ->
  markProcessed event (world s plan t)
  = (inr tt, world (ProcessedEventModel.insertOne (ev_id event) s) (tl plan) t).
Proof.
  intros Hne Hnew Hplan.
  unfold markProcessed, ProcessedEventModel.create, roundTrip. run_m.
  destruct (ev_id event =? "") eqn:E;
    [apply String.eqb_eq in E; contradiction|].
  assert (X : existsb (fun d => d =? ev_id event) (processedEvents s) = false).
  { destruct (existsb _ _) eqn:X; [|reflexivity].
    apply existsb_exists in X. destruct X as [x [Hin Hx]].
    apply String.eqb_eq in Hx. subst x. contradiction. }
  destruct plan as [|[] fs]; simpl in *; try discriminate; rewrite X; reflexivity.
Qed.

(** Step 2 never throws, keeps the clock, and changes the store by at most
    one ledger step, and only for a completed checkout. *)
Lemma handleEvent_ledgerStep event w :
  fst (handleEvent parseFloat event w) = inr tt
  /\ now (snd (handleEvent parseFloat event w)) = now w
  /\ (if ev_type event =? "checkout.session.completed"
      then ledgerStep (entryDataOf parseFloat (data_object event)) (now w)
             (store w) (store (snd (handleEvent parseFloat event w)))
      else store (snd (handleEvent parseFloat event w)) = store w).
Proof.
  unfold handleEvent.
  destruct (ev_type event =? "checkout.session.completed"); [|now run_m].
  unfold try_catch.
  pose proof (addEntry_never_throws
                (entryDataOf parseFloat (data_object event)) w) as T.
  pose proof (addEntry_ledgerStep
                (entryDataOf parseFloat (data_object event)) w) as [L N].
  destruct (LeaderboardService.addEntry _ w) as [[e|[]] w']; simpl in *;
    [discriminate|]. auto.
Qed.

Lemma deliver_outcome d s :
  outcome d s (fst (deliver d s)) (snd (deliver d s)).
Proof.
  unfold Gateway.deliver, Gateway.webhook.
  destruct (constructEvent _ _ _) as [msg|event] eqn:C.
  - simpl. now apply rejected.
  - unfold dedupCheck, ProcessedEventModel.findOne, roundTrip. run_m.
    destruct (d_faults d) as [|[] fs] eqn:P; simpl.
    + destruct (find _ _) as [x|] eqn:F; simpl.
      * eapply already_seen; eauto. now rewrite P.
        eapply find_event_some; eauto.
      * pose proof (handleEvent_ledgerStep event (world s [] (d_time d)))
          as [T [N L]].
        unfold world in *.
        destruct (handleEvent parseFloat event _) as [[e|[]] w1];
          simpl in *; [discriminate|].
        pose proof (markProcessed_recordStep event w1) as [T2 R].
        destruct (markProcessed event w1) as [[e|[]] w2];
          simpl in *; [discriminate|].
        eapply handled; eauto. now rewrite P.
        eapply find_event_none; eauto.
    + eapply lookup_failed; eauto. now rewrite P.
    + destruct (find _ _) as [x|] eqn:F; simpl.
      * eapply already_seen; eauto. now rewrite P.
        eapply find_event_some; eauto.
      * pose proof (handleEvent_ledgerStep event (world s fs (d_time d)))
          as [T [N L]].
        unfold world in *.
        destruct (handleEvent parseFloat event _) as [[e|[]] w1];
          simpl in *; [discriminate|].
        pose proof (markProcessed_recordStep event w1) as [T2 R].
        destruct (markProcessed event w1) as [[e|[]] w2];
          simpl in *; [discriminate|].
        eapply handled; eauto. now rewrite P.
        eapply find_event_none; eauto.
Qed.


Lemma deliver_wf d s : wf s -> wf (snd (deliver d s)).
Proof.
  intros W. destruct (deliver_outcome d s) as [| | |event s1 s' C P N L R]; auto.
  eapply recordStep_wf; [exact R|].
  destruct (ev_type event =? "checkout.session.completed").
  - eapply ledgerStep_wf; eauto.
  - now subst.
Qed.

(** ** The HTTP contract of the webhook *)

(** C7. The webhook answers every callback. The answer is 400 exactly when
    [constructEvent] throws (the signature does not verify); it is 500, with
    the store untouched, when the event verifies and the dedup lookup throws
    (the lookup is the handler's first storage call: it throws when the fault
    plan starts with [true]); and it is 200 when the event verifies and the
    lookup answers, which covers the event already seen (nothing is changed
    then) and the event handled. *)
Theorem webhook_http_contract (d : Delivery) (s : Store) :
  let verified :=
    constructEvent (req_body (d_request d)) (stripe_signature (d_request d))
                   secret in
  exists r,
    fst (deliver d s) = Some r
    /\ (status r = 400 <-> exists msg, verified = inl msg)
    /\ (forall event, verified = inr event ->
          hd false (d_faults d) = true ->
          status r = 500 /\ snd (deliver d s) = s)
    /\ (forall event, verified = inr event ->
          hd false (d_faults d) = false ->
          status r = 200)
    /\ (forall event, verified = inr event ->
          hd false (d_faults d) = false ->
          In (ev_id event) (processedEvents s) ->
          r = {| status := 200; body := Text "Event already processed" |}
          /\ snd (deliver d s) = s).
Proof.
  simpl.
  destruct (deliver_outcome d s) as [msg C|event C P|event C P I|event s1 s' C P N L R];
    (eexists; split; [reflexivity|]); simpl; rewrite C.
  - split; [split; eauto|]. repeat split; intros; discriminate.
  - split; [split; [discriminate|intros [m Hm]; discriminate]|].
    repeat split; intros; congruence.
  - split; [split; [discriminate|intros [m Hm]; discriminate]|].
    repeat split; intros; congruence.
  - split; [split; [discriminate|intros [m Hm]; discriminate]|].
    split; [intros; congruence|]. split; [reflexivity|].
    intros e He _ Hin. inversion He; subst. contradiction.
Qed.

(** ** The read route *)

(** C9. [getLeaderboard] never throws: whatever the storage call does, it
    returns an array, the empty one when the call fails. So the read route
    always answers 200 with a JSON array, its 500 branch is never taken, and
    the answer to a failed read is the answer an empty leaderboard gets. *)
Theorem leaderboard_read_hides_failures :
  (forall s plan t,
      exists rows,
        fst (LeaderboardService.getLeaderboard (world s plan t)) = inr rows
        /\ readLeaderboard s plan t
           = Some {| status := 200; body := JsonRows rows |})
  /\ (forall s plan t,
        fst (LeaderboardService.getLeaderboard (world s (true :: plan) t))
        = inr []
        /\ readLeaderboard s (true :: plan) t
           = Some {| status := 200; body := JsonRows [] |})
  /\ (forall s plan t t',
        readLeaderboard s (true :: plan) t = readLeaderboard emptyStore [] t').
Proof.
  split; [|split].
  - intros s plan t.
    unfold readLeaderboard, api_leaderboard, LeaderboardService.getLeaderboard,
      LeaderboardService.find_sort_createdAt, roundTrip.
    run_m. destruct plan as [|[] plan]; simpl; eexists; split; reflexivity.
  - intros s plan t. split; reflexivity.
  - intros s plan t t'. reflexivity.
Qed.


(** ** Deliveries of an event not seen before *)

Lemma find_event_notin (eventId : string) (l : list string) :
  ~ In eventId l -> find (fun d => d =? eventId) l = None.
Proof.
  intros H. destruct (find _ l) as [x|] eqn:F; [|reflexivity].
  exfalso. apply H. eapply find_event_some; eauto.
Qed.

(** When the lookup answers and finds nothing, the handler runs step 2,
    then step 3, and answers 200. *)
Lemma deliver_fresh d s event :
  constructEvent (req_body (d_request d)) (stripe_signature (d_request d))
                 secret = inr event ->
  ~ In (ev_id event) (processedEvents s) ->
  hd false (d_faults d) = false ->
  deliver d s
  = (Some {| status := 200; body := Text "Event received" |},
     store (snd (markProcessed event
                   (snd (handleEvent parseFloat event
                           (world s (tl (d_faults d)) (d_time d))))))).
Proof.
  intros C N P. apply find_event_notin in N.
  unfold Gateway.deliver, Gateway.webhook. rewrite C.
  unfold dedupCheck, ProcessedEventModel.findOne, roundTrip. run_m.
  destruct (d_faults d) as [|[] fs]; simpl in *; try discriminate;
    rewrite N; simpl.
  - pose proof (handleEvent_ledgerStep event
                  {| store := s; faults := []; now := d_time d |}) as [T _].
    destruct (handleEvent parseFloat event _) as [[e|[]] w1];
      simpl in *; [discriminate|].
    pose proof (markProcessed_recordStep event w1) as [T2 _].
    destruct (markProcessed event w1) as [[e|[]] w2];
      simpl in *; [discriminate|]. reflexivity.
  - pose proof (handleEvent_ledgerStep event
                  {| store := s; faults := fs; now := d_time d |}) as [T _].
    destruct (handleEvent parseFloat event _) as [[e|[]] w1];
      simpl in *; [discriminate|].
    pose proof (markProcessed_recordStep event w1) as [T2 _].
    destruct (markProcessed event w1) as [[e|[]] w2];
      simpl in *; [discriminate|]. reflexivity.
Qed.


(** With an exhausted fault plan [addEntry] leaves it exhausted. *)
Lemma addEntry_no_faults entry s t :
  faults (snd (LeaderboardService.addEntry entry (world s [] t))) = [].
Proof.
  unfold LeaderboardService.addEntry, LeaderboardService.addEntry_try,
    EntryModel.findOne, roundTrip.
  run_m.
  destruct (find _ (entries s)) as [ex|]; simpl; [reflexivity|].
  unfold EntryModel.create, roundTrip. run_m.
  destruct (EntryModel.required "name" _); simpl; [reflexivity|].
  destruct (EntryModel.required "locationLabel" _); simpl; [reflexivity|].
  destruct (EntryModel.castPosition _); simpl; [reflexivity|].
  destruct (EntryModel.required "stripeCustomerID" _); simpl; [reflexivity|].
  destruct (existsb _ _); reflexivity.
Qed.

Lemma handleEvent_no_faults event s t :
  faults (snd (handleEvent parseFloat event (world s [] t))) = [].
Proof.
  unfold handleEvent.
  destruct (ev_type event =? "checkout.session.completed"); [|reflexivity].
  unfold try_catch.
  pose proof (addEntry_no_faults
                (entryDataOf parseFloat (data_object event)) s t) as F.
  destruct (LeaderboardService.addEntry _ _) as [[e|[]] w']; exact F.
Qed.



(** ** A completed checkout, handled with no storage fault *)

Lemma find_snoc_none {A} (f : A -> bool) l x :
  find f l = None -> find f (l ++ [x]) = if f x then Some x else None.
Proof.
  induction l as [|a l IH]; simpl; [reflexivity|].
  destruct (f a); [discriminate|exact IH].
Qed.

(** The ledger after such a delivery is the ledger [addEntry] leaves. *)
Lemma deliver_checkout_entries d s event :
  constructEvent (req_body (d_request d)) (stripe_signature (d_request d))
                 secret = inr event ->
  ev_type event = "checkout.session.completed" ->
  ~ In (ev_id event) (processedEvents s) ->
  hd false (d_faults d) = false ->
  fst (deliver d s) = Some {| status := 200; body := Text "Event received" |}
  /\ entries (snd (deliver d s))
     = entries (store (snd (LeaderboardService.addEntry
                              (entryDataOf parseFloat (data_object event))
                              (world s (tl (d_faults d)) (d_time d))))).
Proof.
  intros C T N P. rewrite (deliver_fresh d s event C N P). simpl.
  split; [reflexivity|].
  match goal with |- entries (store (snd (markProcessed _ ?w))) = _ =>
    destruct (markProcessed_recordStep event w) as [_ R] end.
  rewrite (recordStep_entries _ _ _ R).
  unfold handleEvent. rewrite T. simpl. unfold try_catch.
  pose proof (addEntry_never_throws
                (entryDataOf parseFloat (data_object event))
                (world s (tl (d_faults d)) (d_time d))) as Th.
  destruct (LeaderboardService.addEntry _ _) as [[e|[]] w'];
    simpl in *; [discriminate|reflexivity].
Qed.

(** ** New-payer creation *)

(** The ledger after the creation of a payer's entry. *)
Lemma creation_appends_document d s event k :
  constructEvent (req_body (d_request d)) (stripe_signature (d_request d))
                 secret = inr event ->
  ev_type event = "checkout.session.completed" ->
  ~ In (ev_id event) (processedEvents s) ->
  d_faults d = [] ->
  md_stripeCustomerID (metadata (data_object event)) = Some k ->
  entryOf k s = None ->
  creatable (entryDataOf parseFloat (data_object event)) = true ->
  entries (snd (deliver d s))
  = entries s ++ [documentOf (entryDataOf parseFloat (data_object event))
                             (nextId s) (d_time d)]
  /\ entryOf k (snd (deliver d s))
     = Some (documentOf (entryDataOf parseFloat (data_object event))
                        (nextId s) (d_time d)).
Proof.
  intros C T N P K F Cr.
  destruct (deliver_checkout_entries d s event C T N) as [_ E];
    [now rewrite P|].
  rewrite P in E. simpl in E.
  rewrite addEntry_create_run in E; [|simpl; rewrite K; exact F|exact Cr].
  simpl in E. split; [exact E|].
  unfold entryOf. rewrite E. rewrite find_snoc_none by exact F.
  unfold EntryModel.matches. simpl stripeCustomerID. rewrite K. simpl.
  rewrite String.eqb_refl. reflexivity.
Qed.


(** C5 as the code has it. A completed checkout that is not on record,
    whose payer has no entry and whose metadata passes the validation of the
    schema (a name, a location label and a payer identity that are not
    empty, and, when [lat] and [lng] are both given, two strings that parse
    as numbers), handled with no storage fault, appends exactly one document
    to the ledger: the payer's, created at the time of the delivery, with
    [amount_total / 100] as its total, with the name, the location label and
    the message of the event ([''] for no message), and with the position
    [[parseFloat lng, parseFloat lat]] when both are given and a position
    without coordinates otherwise. *)
Theorem new_payer_creates_one_entry (d : Delivery) (s : Store)
    (event : StripeEvent) (k : string) :
  constructEvent (req_body (d_request d)) (stripe_signature (d_request d))
                 secret = inr event ->
  ev_type event = "checkout.session.completed" ->
  ~ In (ev_id event) (processedEvents s) ->
  d_faults d = [] ->
  md_stripeCustomerID (metadata (data_object event)) = Some k ->
  entryOf k s = None ->
  k <> "" ->
  truthy (md_name (metadata (data_object event))) = true ->
  truthy (md_locationLabel (metadata (data_object event))) = true ->
  (truthy (md_lat (metadata (data_object event)))
   && truthy (md_lng (metadata (data_object event))) = true ->
   parseFloat (or_empty (md_lat (metadata (data_object event)))) <> None
   /\ parseFloat (or_empty (md_lng (metadata (data_object event)))) <> None) ->
  let md := metadata (data_object event) in
  exists created,
    entries (snd (deliver d s)) = entries s ++ [created]
    /\ entryOf k (snd (deliver d s)) = Some created
    /\ stripeCustomerID created = k
    /\ amount created = (inject_Z (amount_total (data_object event)) / 100)%Q
    /\ Some (name created) = md_name md
    /\ Some (locationLabel created) = md_locationLabel md
    /\ message created = or_empty (md_message md)
    /\ createdAt created = d_time d
    /\ (truthy (md_lat md) && truthy (md_lng md) = true ->
        exists la ln,
          parseFloat (or_empty (md_lat md)) = Some la
          /\ parseFloat (or_empty (md_lng md)) = Some ln
          /\ position created
             = Some {| pos_type := "Point"; coordinates := Some [ln; la] |})
    /\ (truthy (md_lat md) && truthy (md_lng md) = false ->
        position created
        = Some {| pos_type := "Point"; coordinates := None |}).
Proof.
  intros C T N P K F Hk Tn Tl Hco md. fold md in Tn, Tl, Hco.
  assert (Cr : creatable (entryDataOf parseFloat (data_object event)) = true).
  { pose proof K as K'. fold md in K'.
    unfold creatable. simpl. fold md. rewrite Tn, Tl, K'. simpl.
    assert (Hk' : negb (k =? "") = true)
      by (apply negb_true_iff, String.eqb_neq; exact Hk).
    rewrite Hk'. simpl.
    destruct (truthy (md_lat md) && truthy (md_lng md)) eqn:L; [|reflexivity].
    destruct (Hco eq_refl) as [Hla Hln]. simpl.
    destruct (parseFloat (or_empty (md_lng md))); [|congruence].
    destruct (parseFloat (or_empty (md_lat md))); [|congruence].
    reflexivity. }
  destruct (creation_appends_document d s event k C T N P K F Cr)
    as [E Eo].
  exists (documentOf (entryDataOf parseFloat (data_object event))
                     (nextId s) (d_time d)).
  split; [exact E|]. split; [exact Eo|].
  split; [simpl; now rewrite K|]. split; [reflexivity|].
  pose proof Cr as Cr'.
  apply creatable_fields in Cr'. destruct Cr' as [Hn [Hl _]].
  apply required_inr in Hn. destruct Hn as [Hn _].
  apply required_inr in Hl. destruct Hl as [Hl _].
  simpl in Hn, Hl. fold md in Hn, Hl.
  split; [simpl; fold md; now rewrite Hn|].
  split; [simpl; fold md; now rewrite Hl|].
  split; [reflexivity|]. split; [reflexivity|]. split.
  - intros L. destruct (Hco L) as [Hla Hln].
    destruct (parseFloat (or_empty (md_lat md))) as [la|] eqn:Ela;
      [|congruence].
    destruct (parseFloat (or_empty (md_lng md))) as [ln|] eqn:Eln;
      [|congruence].
    exists la, ln. split; [reflexivity|]. split; [reflexivity|].
    unfold documentOf, positionOf. simpl. fold md. rewrite L, Ela, Eln.
    reflexivity.
  - intros L. unfold documentOf, positionOf. simpl. fold md. rewrite L.
    reflexivity.
Qed.

(** ** Top-up *)

(** C8 as the code has it. A completed checkout that is not on record,
    whose payer has an entry, handled with no storage fault, adds
    [amount_total / 100] to the entry's total and overwrites its message when
    the event carries a non-empty one. The name, the location label, the
    position and the creation date of the entry stay what they were, and no
    document is added. *)
Theorem top_up_overwrites_message_only (d : Delivery) (s : Store)
    (event : StripeEvent) (k : string) (ex : Entry) :
  constructEvent (req_body (d_request d)) (stripe_signature (d_request d))
                 secret = inr event ->
  ev_type event = "checkout.session.completed" ->
  ~ In (ev_id event) (processedEvents s) ->
  d_faults d = [] ->
  md_stripeCustomerID (metadata (data_object event)) = Some k ->
  entryOf k s = Some ex ->
  let md := metadata (data_object event) in
  exists ex',
    entryOf k (snd (deliver d s)) = Some ex'
    /\ amount ex'
       = (amount ex + inject_Z (amount_total (data_object event)) / 100)%Q
    /\ message ex' = (if or_empty (md_message md) =? ""
                      then message ex else or_empty (md_message md))
    /\ name ex' = name ex
    /\ locationLabel ex' = locationLabel ex
    /\ position ex' = position ex
    /\ createdAt ex' = createdAt ex
    /\ length (entries (snd (deliver d s))) = length (entries s).
Proof.
  intros C T N P K F md.
  destruct (deliver_checkout_entries d s event C T N) as [_ E];
    [now rewrite P|].
  rewrite P in E. simpl in E.
  rewrite (addEntry_topUp_run _ s (d_time d) ex) in E
    by (simpl; rewrite K; exact F).
  exists (EntryModel.applyModified
            (LeaderboardService.topUp ex
               (entryDataOf parseFloat (data_object event))) ex).
  split.
  - unfold entryOf. rewrite E.
    apply (entryOf_updateOne k s ex _ F).
  - simpl. fold md. split; [reflexivity|]. split.
    + destruct (or_empty (md_message md) =? ""); reflexivity.
    + repeat split; try reflexivity.
      rewrite E. simpl. apply length_map.
Qed.


(** ** Coordinates *)

Lemma castNumbers_pair a b qs :
  EntryModel.castNumbers [a; b] = Some qs ->
  exists x y, a = Some x /\ b = Some y /\ qs = [x; y].
Proof.
  simpl. destruct a as [x|]; [|discriminate]. destruct b as [y|]; [|discriminate].
  intros H. inversion H. eauto.
Qed.

Lemma toRow_documentOf_pair entry id t ln la :
  e_position entry
  = Some {| p_type := "Point"; p_coordinates := [Some ln; Some la] |} ->
  position (documentOf entry id t)
  = Some {| pos_type := "Point"; coordinates := Some [ln; la] |}
  /\ LeaderboardService.lat (LeaderboardService.toRow (documentOf entry id t))
     = Some la
  /\ LeaderboardService.lng (LeaderboardService.toRow (documentOf entry id t))
     = Some ln.
Proof.
  intros H.
  unfold LeaderboardService.toRow, LeaderboardService.coordinate,
    documentOf, positionOf.
  simpl. rewrite H. simpl. auto.
Qed.

Lemma toRow_documentOf_none entry id t :
  e_position entry = None ->
  LeaderboardService.lat (LeaderboardService.toRow (documentOf entry id t))
  = None
  /\ LeaderboardService.lng (LeaderboardService.toRow (documentOf entry id t))
     = None.
Proof.
  intros H.
  unfold LeaderboardService.toRow, LeaderboardService.coordinate,
    documentOf, positionOf.
  simpl. rewrite H. simpl. auto.
Qed.

Lemma readLeaderboard_ok s t :
  readLeaderboard s [] t
  = Some {| status := 200;
            body := JsonRows (map LeaderboardService.toRow
                                (sortDesc createdAt Z.leb (entries s))) |}.
Proof. reflexivity. Qed.

(** C10 as the code has it. For a completed checkout that creates the
    payer's entry (no storage fault, the event not on record, the payer
    without an entry, the required metadata present): the read route returns
    the row of the created document; when the metadata has a non-empty [lat]
    and a non-empty [lng], the webhook hands [addEntry] the coordinates
    [[parseFloat lng, parseFloat lat]], they are stored in that order, and
    the row's [lat] and [lng] are the numbers submitted with the event; when
    either is missing, the row's [lat] and [lng] are [undefined]. *)
Theorem coordinates_round_trip_on_creation (d : Delivery) (s : Store)
    (event : StripeEvent) (k : string) (t' : Z) :
  constructEvent (req_body (d_request d)) (stripe_signature (d_request d))
                 secret = inr event ->
  ev_type event = "checkout.session.completed" ->
  ~ In (ev_id event) (processedEvents s) ->
  d_faults d = [] ->
  md_stripeCustomerID (metadata (data_object event)) = Some k ->
  entryOf k s = None ->
  creatable (entryDataOf parseFloat (data_object event)) = true ->
  let md := metadata (data_object event) in
  let entryData := entryDataOf parseFloat (data_object event) in
  let created := documentOf entryData (nextId s) (d_time d) in
  let row := LeaderboardService.toRow created in
  entryOf k (snd (deliver d s)) = Some created
  /\ (exists rows,
        readLeaderboard (snd (deliver d s)) [] t'
        = Some {| status := 200; body := JsonRows rows |}
        /\ In row rows)
  /\ (truthy (md_lat md) && truthy (md_lng md) = true ->
      exists la ln,
        parseFloat (or_empty (md_lat md)) = Some la
        /\ parseFloat (or_empty (md_lng md)) = Some ln
        /\ e_position entryData
           = Some {| p_type := "Point"; p_coordinates := [Some ln; Some la] |}
        /\ position created
           = Some {| pos_type := "Point"; coordinates := Some [ln; la] |}
        /\ LeaderboardService.lat row = Some la
        /\ LeaderboardService.lng row = Some ln)
  /\ (truthy (md_lat md) && truthy (md_lng md) = false ->
      e_position entryData = None
      /\ LeaderboardService.lat row = None
      /\ LeaderboardService.lng row = None).
Proof.
  intros C T N P K F Cr md entryData created row.
  destruct (creation_appends_document d s event k C T N P K F Cr)
    as [E Eo].
  split; [exact Eo|]. split.
  - eexists. split; [apply readLeaderboard_ok|].
    apply in_map. eapply Permutation_in; [apply sortDesc_perm|].
    rewrite E. apply in_or_app. right. now left.
  - split.
    + intros L.
      assert (Hp : e_position entryData
                   = Some {| p_type := "Point";
                             p_coordinates :=
                               [parseFloat (or_empty (md_lng md));
                                parseFloat (or_empty (md_lat md))] |})
        by (unfold entryData, entryDataOf; simpl; fold md; now rewrite L).
      unfold creatable in Cr. fold entryData in Cr. rewrite Hp in Cr.
      simpl in Cr.
      destruct (parseFloat (or_empty (md_lng md))) as [ln|] eqn:Hln;
        [|rewrite andb_false_r in Cr; discriminate].
      destruct (parseFloat (or_empty (md_lat md))) as [la|] eqn:Hla;
        [|rewrite andb_false_r in Cr; discriminate].
      exists la, ln. split; [reflexivity|]. split; [reflexivity|].
      try rewrite Hln in Hp. try rewrite Hla in Hp.
      split; [exact Hp|].
      exact (toRow_documentOf_pair entryData (nextId s) (d_time d) ln la Hp).
    + intros L.
      assert (Hp : e_position entryData = None)
        by (unfold entryData, entryDataOf; simpl; fold md; now rewrite L).
      split; [exact Hp|].
      exact (toRow_documentOf_none entryData (nextId s) (d_time d) Hp).
Qed.

(** ** A failing ledger mutation *)

Lemma addEntry_world entry w :
  snd (LeaderboardService.addEntry entry w)
  = snd (LeaderboardService.addEntry_try entry w).
Proof.
  unfold LeaderboardService.addEntry, try_catch.
  destruct (LeaderboardService.addEntry_try entry w) as [[e|[]] w']; reflexivity.
Qed.

(** When the [try] block of [addEntry] throws it has written nothing. *)
Lemma addEntry_try_throws entry w err :
  fst (LeaderboardService.addEntry_try entry w) = inl err ->
  store (snd (LeaderboardService.addEntry_try entry w)) = store w.
Proof.
  destruct w as [s fs t].
  unfold LeaderboardService.addEntry_try, EntryModel.findOne, roundTrip.
  run_m.
  destruct fs as [|[] fs]; simpl; try reflexivity;
    (destruct (find _ (entries s)) as [ex|]; simpl;
     [ unfold EntryModel.save, roundTrip; run_m;
       try (destruct fs as [|[] fs]; simpl); intros; try discriminate;
       reflexivity
     | unfold EntryModel.create, roundTrip; run_m;
       destruct (EntryModel.required "name" _); simpl; try reflexivity;
       destruct (EntryModel.required "locationLabel" _); simpl; try reflexivity;
       destruct (EntryModel.castPosition _); simpl; try reflexivity;
       destruct (EntryModel.required "stripeCustomerID" _); simpl;
         try reflexivity;
       try (destruct fs as [|[] fs]; simpl); try reflexivity;
       destruct (existsb _ _); simpl; intros; try discriminate; reflexivity ]).
Qed.

(** C1 as the code has it. When the ledger mutation of a completed checkout
    fails (the [try] block of [addEntry] throws), [addEntry] swallows the
    exception: the contribution ledger is left as it was, and the handler
    still goes on to step 3 and answers 200; when the identifier is not
    empty and the insert of step 3 does not fail, the event is put on
    record. *)
Theorem failed_mutation_is_acknowledged (d : Delivery) (s : Store)
    (event : StripeEvent) (plan : list bool) (err : Error) :
  constructEvent (req_body (d_request d)) (stripe_signature (d_request d))
                 secret = inr event ->
  ev_type event = "checkout.session.completed" ->
  ~ In (ev_id event) (processedEvents s) ->
  d_faults d = false :: plan ->
  fst (LeaderboardService.addEntry_try
         (entryDataOf parseFloat (data_object event))
         (world s plan (d_time d))) = inl err ->
  let after_step2 :=
    snd (LeaderboardService.addEntry_try
           (entryDataOf parseFloat (data_object event))
           (world s plan (d_time d))) in
  fst (deliver d s) = Some {| status := 200; body := Text "Event received" |}
  /\ entries (snd (deliver d s)) = entries s
  /\ (ev_id event <> "" ->
      hd false (faults after_step2) = false ->
      processedEvents (snd (deliver d s))
      = processedEvents s ++ [ev_id event]).
Proof.
  intros C T N P Hfail after_step2.
  destruct (deliver_checkout_entries d s event C T N) as [R E];
    [now rewrite P|].
  rewrite P in E. simpl in E. rewrite addEntry_world in E.
  pose proof (addEntry_try_throws _ _ _ Hfail) as Hs. simpl in Hs.
  split; [exact R|]. split; [now rewrite E, Hs|].
  intros Hne Hok.
  rewrite (deliver_fresh d s event C N) by now rewrite P.
  rewrite P. simpl tl. unfold handleEvent. rewrite T. simpl.
  unfold try_catch at 1.
  pose proof (addEntry_never_throws
                (entryDataOf parseFloat (data_object event))
                (world s plan (d_time d))) as Th.
  pose proof (addEntry_world (entryDataOf parseFloat (data_object event))
                (world s plan (d_time d))) as Hw.
  destruct (LeaderboardService.addEntry _ _) as [[e|[]] w'];
    simpl in *; [discriminate|].
  subst w'. fold after_step2. fold after_step2 in Hs.
  destruct after_step2 as [s2 f2 t2]. simpl in *. subst s2.
  change {| store := s; faults := f2; now := t2 |} with (world s f2 t2).
  rewrite (markProcessed_inserts event s f2 t2 Hne N Hok). reflexivity.
Qed.


End GatewayFacts.

(** ** Ranking *)

Lemma insertDesc_map {A K} (key : A -> K) (leb : K -> K -> bool)
      (g : A -> A) x l :
  (forall a, key (g a) = key a) ->
  insertDesc key leb (g x) (map g l) = map g (insertDesc key leb x l).
Proof.
  intros Hg. induction l as [|y l IH]; simpl; [reflexivity|].
  rewrite !Hg. destruct (leb (key y) (key x)); simpl; [reflexivity|].
  now rewrite IH.
Qed.

(** A change of the documents that keeps the sort key does not change the
    order of the result. *)
Lemma sortDesc_map {A K} (key : A -> K) (leb : K -> K -> bool)
      (g : A -> A) l :
  (forall a, key (g a) = key a) ->
  sortDesc key leb (map g l) = map g (sortDesc key leb l).
Proof.
  intros Hg. induction l as [|x l IH]; simpl; [reflexivity|].
  rewrite IH. now apply insertDesc_map.
Qed.

Lemma StronglySorted_weaken {A} (R R' : A -> A -> Prop) l :
  (forall x y, R x y -> R' x y) ->
  StronglySorted R l -> StronglySorted R' l.
Proof.
  intros HR. induction 1 as [|x l Hs IH Hx]; constructor; auto.
  eapply Forall_impl; [|exact Hx]. auto.
Qed.

(** C6 as the code has it. The earlier [getLeaderboard] returns the
    entries of the collection, all of them, in descending order of [amount];
    entries {A:50, B:30, C:80} come back as [C, A, B]; no second key is
    given to the sort. The current [getLeaderboard] returns a row for every
    entry, in descending order of [createdAt], the most recent first, and
    that order does not depend on the amounts: whatever totals the entries
    are given, the rows come back in the same order. *)
Theorem ranking_order :
  (forall coll,
      Permutation coll (Legacy.getLeaderboard coll false)
      /\ StronglySorted
           (fun x y => (Legacy.amount y <= Legacy.amount x)%Q)
           (Legacy.getLeaderboard coll false))
  /\ Legacy.getLeaderboard [Sample.A50; Sample.B30; Sample.C80] false
     = [Sample.C80; Sample.A50; Sample.B30]
  /\ (forall s plan t,
        let ranked := sortDesc createdAt Z.leb (entries s) in
        fst (LeaderboardService.getLeaderboard (world s (false :: plan) t))
        = inr (map LeaderboardService.toRow ranked)
        /\ Permutation (entries s) ranked
        /\ StronglySorted (fun x y => (createdAt y <= createdAt x)%Z) ranked)
  /\ (forall (total : Entry -> Q) l,
        sortDesc createdAt Z.leb (map (fun d => withAmount (total d) d) l)
        = map (fun d => withAmount (total d) d)
              (sortDesc createdAt Z.leb l)).
Proof.
  split; [|split; [|split]].
  - intros coll. unfold Legacy.getLeaderboard. simpl. split.
    + apply sortDesc_perm.
    + eapply StronglySorted_weaken;
        [|apply (sortDesc_sorted Legacy.amount Qle_bool
                   Qle_bool_total Qle_bool_trans)].
      intros x y H. now apply Qle_bool_iff.
  - reflexivity.
  - intros s plan t ranked. split; [reflexivity|]. split.
    + apply sortDesc_perm.
    + eapply StronglySorted_weaken;
        [|apply (sortDesc_sorted createdAt Z.leb Zleb_total Zleb_trans)].
      intros x y H. now apply Z.leb_le.
  - intros total l. now apply sortDesc_map.
Qed.

(** ** [addEntry], case by case *)

Lemma truthy_required path v s :
  EntryModel.required path v = inr s -> truthy v = true /\ or_empty v = s.
Proof.
  unfold EntryModel.required, truthy. destruct v as [x|]; [|discriminate].
  destruct (x =? ""); [discriminate|]. intros H. inversion H. auto.
Qed.

Lemma castPosition_inr entry pos :
  EntryModel.castPosition (e_position entry) = inr pos ->
  pos = positionOf entry
  /\ match e_position entry with
     | None => true
     | Some p => (p_type p =? "Point")
                 && match EntryModel.castNumbers (p_coordinates p) with
                    | Some _ => true
                    | None => false
                    end
     end = true.
Proof.
  unfold EntryModel.castPosition, positionOf.
  destruct (e_position entry) as [p|].
  - destruct (p_type p =? "Point") eqn:E; simpl; [|discriminate].
    apply String.eqb_eq in E.
    destruct (EntryModel.castNumbers (p_coordinates p)); [|discriminate].
    intros H. inversion H. rewrite E. auto.
  - intros H. inversion H. auto.
Qed.

(** What [addEntry] leaves: the store as it was (an exception was
    swallowed), the top-up of the document found, or the insert of the
    document of a creatable entry. *)
Lemma addEntry_cases entry w :
  let s := store w in
  let s' := store (snd (LeaderboardService.addEntry entry w)) in
  s' = s
  \/ (exists ex,
        find (EntryModel.matches (e_stripeCustomerID entry)) (entries s)
        = Some ex
        /\ s' = EntryModel.updateOne (_id ex)
                  (LeaderboardService.topUp ex entry) s)
  \/ (find (EntryModel.matches (e_stripeCustomerID entry)) (entries s) = None
      /\ creatable entry = true
      /\ s' = EntryModel.insertOne (documentOf entry (nextId s) (now w)) s).
Proof.
  destruct w as [s fs t]. cbv zeta.
  unfold LeaderboardService.addEntry, LeaderboardService.addEntry_try,
    EntryModel.findOne, roundTrip.
  run_m.
  assert (Create :
    forall fs',
      let s' := store (snd (try_catch (EntryModel.create entry)
                                      (fun _ => ret tt)
                                      {| store := s; faults := fs'; now := t |})) in
      s' = s
      \/ (creatable entry = true
          /\ s' = EntryModel.insertOne (documentOf entry (nextId s) t) s)).
  { intros fs'. unfold EntryModel.create, roundTrip. run_m.
    destruct (EntryModel.required "name" _) as [?|nm] eqn:Hn; simpl; auto.
    destruct (EntryModel.required "locationLabel" _) as [?|loc] eqn:Hl;
      simpl; auto.
    destruct (EntryModel.castPosition _) as [?|pos] eqn:Hp; simpl; auto.
    destruct (EntryModel.required "stripeCustomerID" _) as [?|cid] eqn:Hc;
      simpl; auto.
    apply truthy_required in Hn, Hl, Hc.
    destruct Hn as [Tn En], Hl as [Tl El], Hc as [Tc Ec].
    apply castPosition_inr in Hp. destruct Hp as [Ep Tp].
    assert (Cr : creatable entry = true)
      by (unfold creatable; now rewrite Tn, Tl, Tc, Tp).
    assert (Doc : {| _id := nextId s; name := nm; amount := e_amount entry;
                     message := e_message entry; locationLabel := loc;
                     position := Some pos; createdAt := t;
                     stripeCustomerID := cid |}
                  = documentOf entry (nextId s) t)
      by (unfold documentOf; now rewrite En, El, Ec, Ep).
    destruct fs' as [|[] fs']; simpl; auto;
      (destruct (existsb _ (entries s)); simpl; auto;
       right; split; [exact Cr|now rewrite Doc]). }
  destruct fs as [|[] fs]; simpl; auto.
  - destruct (find _ (entries s)) as [ex|] eqn:F; simpl.
    + right. left. exists ex. auto.
    + specialize (Create []). unfold try_catch in Create. simpl in Create.
      destruct (EntryModel.create entry _) as [[e|[]] w'];
        simpl in *; destruct Create as [C|[C1 C2]]; auto.
  - destruct (find _ (entries s)) as [ex|] eqn:F; simpl.
    + unfold EntryModel.save, roundTrip. run_m.
      destruct fs as [|[] fs]; simpl; auto; right; left; exists ex; auto.
    + specialize (Create fs). unfold try_catch in Create. simpl in Create.
      destruct (EntryModel.create entry _) as [[e|[]] w'];
        simpl in *; destruct Create as [C|[C1 C2]]; auto.
Qed.

(** ** Two payments of one payer *)

(** Run to its end without interruption, a call in flight is [addEntry]. *)
Lemma steps_are_addEntry entry w :
  bind (Interleaving.step (Interleaving.Start entry)) Interleaving.step w
  = (inr Interleaving.Finished, snd (LeaderboardService.addEntry entry w)).
Proof.
  rewrite addEntry_world.
  unfold Interleaving.step, LeaderboardService.addEntry_try,
    bind, try_catch, ret.
  destruct (EntryModel.findOne (e_stripeCustomerID entry) w)
    as [[e|existing] w1]; [reflexivity|].
  destruct (LeaderboardService.applyEntry entry existing w1)
    as [[e|[]] w2]; reflexivity.
Qed.

Lemma run_AA rest ea b w :
  Interleaving.run (Interleaving.A :: Interleaving.A :: rest)
                   (Interleaving.Start ea) b w
  = Interleaving.run rest Interleaving.Finished b
                     (snd (LeaderboardService.addEntry ea w)).
Proof.
  pose proof (steps_are_addEntry ea w) as H.
  cbn [Interleaving.run]. unfold bind in *.
  destruct (Interleaving.step (Interleaving.Start ea) w) as [[e|c] w1];
    [discriminate|].
  now rewrite H.
Qed.

Lemma run_BB rest a eb w :
  Interleaving.run (Interleaving.B :: Interleaving.B :: rest)
                   a (Interleaving.Start eb) w
  = Interleaving.run rest a Interleaving.Finished
                     (snd (LeaderboardService.addEntry eb w)).
Proof.
  pose proof (steps_are_addEntry eb w) as H.
  cbn [Interleaving.run]. unfold bind in *.
  destruct (Interleaving.step (Interleaving.Start eb) w) as [[e|c] w1];
    [discriminate|].
  now rewrite H.
Qed.

(** One call after the other. *)
Lemma run_sequential ea eb w :
  snd (Interleaving.run
         [Interleaving.A; Interleaving.A; Interleaving.B; Interleaving.B]
         (Interleaving.Start ea) (Interleaving.Start eb) w)
  = snd (LeaderboardService.addEntry eb
           (snd (LeaderboardService.addEntry ea w)))
  /\ snd (Interleaving.run
            [Interleaving.B; Interleaving.B; Interleaving.A; Interleaving.A]
            (Interleaving.Start ea) (Interleaving.Start eb) w)
     = snd (LeaderboardService.addEntry ea
              (snd (LeaderboardService.addEntry eb w))).
Proof.
  split.
  - now rewrite run_AA, run_BB.
  - now rewrite run_BB, run_AA.
Qed.

(** With no storage fault, [addEntry] adds its amount to the total of an
    entry that exists, creates the entry of a payer who has none when the
    entry passes the validation, and does nothing otherwise. *)
Lemma addEntry_amount entry s t k :
  e_stripeCustomerID entry = Some k ->
  exists s',
    LeaderboardService.addEntry entry (world s [] t) = (inr tt, world s' [] t)
    /\ option_map amount (entryOf k s')
       = match entryOf k s with
         | Some ex => Some (amount ex + e_amount entry)%Q
         | None => if creatable entry then Some (e_amount entry) else None
         end.
Proof.
  intros K.
  destruct (entryOf k s) as [ex|] eqn:F.
  - eexists. split; [apply (addEntry_topUp_run entry s t ex); now rewrite K|].
    rewrite (entryOf_updateOne k s ex _ F). reflexivity.
  - destruct (creatable entry) eqn:Cr.
    + eexists. split;
        [apply (addEntry_create_run entry s t); [now rewrite K|exact Cr]|].
      unfold entryOf in *. simpl entries. rewrite find_snoc_none by exact F.
      unfold EntryModel.matches. simpl stripeCustomerID. rewrite K. simpl.
      rewrite String.eqb_refl. reflexivity.
    + exists s.
      pose proof (addEntry_never_throws entry (world s [] t)) as Th.
      pose proof (addEntry_no_faults entry s t) as Hf.
      pose proof (addEntry_ledgerStep entry (world s [] t)) as [_ Hn].
      pose proof (addEntry_cases entry (world s [] t)) as Cs.
      cbv zeta in Cs.
      destruct (LeaderboardService.addEntry entry (world s [] t))
        as [r [s' f' t']].
      simpl in *. subst r f' t'.
      assert (s' = s) as ->.
      { destruct Cs as [E|[[ex [F' _]]|[_ [Cr' _]]]]; auto.
        - rewrite K in F'. unfold entryOf in F. congruence.
        - congruence. }
      split; [reflexivity|]. now rewrite F.
Qed.

(** C3 as the code has it. Two payments of one payer, of amounts [a] and
    [b], whose [addEntry] calls run one after the other with no storage
    fault. When the payer has an entry, its total ends at the old total plus
    the amount of the call that ran first, plus the amount of the call that
    ran second. When the payer has no entry, the call that runs first
    creates it if its entry passes the validation of the schema, and the
    total ends at the sum of the two amounts; if it does not pass, that
    payment is dropped and the total ends at the amount of the second call
    alone, or with no entry at all when the second does not pass either.
    Each call is a [findOne] followed by a write of what was read plus the
    amount. *)
Theorem sequential_payments_add_up (ea eb : EntryData) (s : Store)
    (k : string) (t : Z) :
  e_stripeCustomerID ea = Some k ->
  e_stripeCustomerID eb = Some k ->
  option_map amount
    (entryOf k (Interleaving.after
                  [Interleaving.A; Interleaving.A; Interleaving.B; Interleaving.B]
                  ea eb s t))
  = match entryOf k s with
    | Some ex => Some (amount ex + e_amount ea + e_amount eb)%Q
    | None =>
        if creatable ea then Some (e_amount ea + e_amount eb)%Q
        else if creatable eb then Some (e_amount eb)
        else None
    end
  /\ option_map amount
       (entryOf k (Interleaving.after
                     [Interleaving.B; Interleaving.B; Interleaving.A; Interleaving.A]
                     ea eb s t))
     = match entryOf k s with
       | Some ex => Some (amount ex + e_amount eb + e_amount ea)%Q
       | None =>
           if creatable eb then Some (e_amount eb + e_amount ea)%Q
           else if creatable ea then Some (e_amount ea)
           else None
       end
  /\ (forall w,
        bind (Interleaving.step (Interleaving.Start ea)) Interleaving.step w
        = (inr Interleaving.Finished,
           snd (LeaderboardService.addEntry ea w))).
Proof.
  intros Ka Kb. unfold Interleaving.after.
  destruct (run_sequential ea eb {| store := s; faults := []; now := t |})
    as [Rab Rba].
  rewrite Rab, Rba. clear Rab Rba.
  change {| store := s; faults := []; now := t |} with (world s [] t).
  assert (Two : forall e1 e2,
             e_stripeCustomerID e1 = Some k ->
             e_stripeCustomerID e2 = Some k ->
             option_map amount
               (entryOf k
                  (store (snd (LeaderboardService.addEntry e2
                                 (snd (LeaderboardService.addEntry e1
                                         (world s [] t)))))))
             = match entryOf k s with
               | Some ex => Some (amount ex + e_amount e1 + e_amount e2)%Q
               | None =>
                   if creatable e1 then Some (e_amount e1 + e_amount e2)%Q
                   else if creatable e2 then Some (e_amount e2)
                   else None
               end).
  { intros e1 e2 K1 K2.
    destruct (addEntry_amount e1 s t k K1) as [s1 [R1 T1]].
    rewrite R1. simpl snd.
    destruct (addEntry_amount e2 s1 t k K2) as [s2 [R2 T2]].
    rewrite R2. simpl. rewrite T2.
    destruct (entryOf k s1) as [x1|]; simpl in T1.
    - destruct (entryOf k s) as [ex|].
      + inversion T1 as [A1]. now rewrite A1.
      + destruct (creatable e1); [|discriminate].
        inversion T1 as [A1]. now rewrite A1.
    - destruct (entryOf k s) as [ex|]; [discriminate|].
      destruct (creatable e1); [discriminate|]. reflexivity. }
  split; [exact (Two ea eb Ka Kb)|].
  split; [exact (Two eb ea Kb Ka)|].
  intros w. apply steps_are_addEntry.
Qed.

(** * More of the gateway *)

Section GatewayExtras.

Variable secret : option string.
Variable constructEvent :
  string -> option string -> option string -> string + StripeEvent.
Variable parseFloat : string -> option Q.

#[local] Abbreviation deliver := (deliver secret constructEvent parseFloat).
#[local] Abbreviation deliverAll := (deliverAll secret constructEvent parseFloat).
#[local] Abbreviation reachable := (reachable secret constructEvent parseFloat).
#[local] Abbreviation running := (running secret constructEvent parseFloat).
#[local] Abbreviation step := (Overlap.step parseFloat).
#[local] Abbreviation verified d :=
  (constructEvent (req_body (d_request d)) (stripe_signature (d_request d))
                  secret).

(** The store step 2 leaves, for an event whose lookup found nothing. *)
Lemma handleEvent_cases event s plan t :
  let entry := entryDataOf parseFloat (data_object event) in
  let s1 := store (snd (handleEvent parseFloat event (world s plan t))) in
  s1 = s
  \/ (exists ex,
        ev_type event = "checkout.session.completed"
        /\ find (EntryModel.matches (e_stripeCustomerID entry)) (entries s)
           = Some ex
        /\ s1 = EntryModel.updateOne (_id ex)
                  (LeaderboardService.topUp ex entry) s)
  \/ (ev_type event = "checkout.session.completed"
      /\ find (EntryModel.matches (e_stripeCustomerID entry)) (entries s) = None
      /\ creatable entry = true
      /\ s1 = EntryModel.insertOne (documentOf entry (nextId s) t) s).
Proof.
  cbv zeta. unfold handleEvent.
  destruct (ev_type event =? "checkout.session.completed") eqn:T;
    [|left; reflexivity].
  apply String.eqb_eq in T. unfold try_catch.
  pose proof (addEntry_never_throws
                (entryDataOf parseFloat (data_object event))
                (world s plan t)) as Th.
  pose proof (addEntry_cases (entryDataOf parseFloat (data_object event))
                (world s plan t)) as Cs.
  destruct (LeaderboardService.addEntry _ _) as [[e|[]] w'];
    simpl in *; [discriminate|].
  destruct Cs as [C|[[ex [F C]]|[F [Cr C]]]].
  - now left.
  - right. left. exists ex. auto.
  - right. right. auto.
Qed.

(** A callback that does not get past the dedup lookup changes nothing. *)
Lemma deliver_kept d s :
  (forall event,
      verified d = inr event ->
      hd false (d_faults d) = false ->
      In (ev_id event) (processedEvents s)) ->
  snd (deliver d s) = s.
Proof.
  intros H.
  destruct (deliver_outcome secret constructEvent parseFloat d s)
    as [msg C|event C P|event C P I|event s1 s' C P N L R]; auto.
  exfalso. apply N. now apply H.
Qed.

(** One delivery, in two moves: what step 2 does to the ledger, then what
    step 3 does to the record of events. *)
Lemma deliver_step d s :
  exists s1,
    (s1 = s
     \/ (exists event ex,
           verified d = inr event
           /\ find (EntryModel.matches
                      (e_stripeCustomerID
                         (entryDataOf parseFloat (data_object event))))
                   (entries s) = Some ex
           /\ s1 = EntryModel.updateOne (_id ex)
                     (LeaderboardService.topUp ex
                        (entryDataOf parseFloat (data_object event))) s)
     \/ (exists event,
           verified d = inr event
           /\ creatable (entryDataOf parseFloat (data_object event)) = true
           /\ s1 = EntryModel.insertOne
                     (documentOf (entryDataOf parseFloat (data_object event))
                                 (nextId s) (d_time d)) s))
    /\ recordStep (match verified d with
                   | inr event => ev_id event
                   | inl _ => ""
                   end) s1 (snd (deliver d s)).
Proof.
  destruct (verified d) as [msg|event] eqn:C.
  { exists s. split; [now left|].
    rewrite deliver_kept; [constructor|]. intros e He. congruence. }
  destruct (hd false (d_faults d)) eqn:P.
  { exists s. split; [now left|].
    rewrite deliver_kept; [constructor|]. intros e _ He. congruence. }
  destruct (in_dec string_dec (ev_id event) (processedEvents s)) as [I|N].
  { exists s. split; [now left|].
    rewrite deliver_kept; [constructor|]. intros e He _. congruence. }
  rewrite (deliver_fresh secret constructEvent parseFloat d s event C N P).
  simpl snd.
  pose proof (handleEvent_cases event s (tl (d_faults d)) (d_time d)) as H.
  cbv zeta in H.
  match goal with |- context [markProcessed event ?w] =>
    pose proof (markProcessed_recordStep event w) as [_ R'] end.
  eexists. split; [|exact R'].
  destruct H as [H|[[ex [T [F H]]]|[T [F [Cr H]]]]].
  - now left.
  - right. left. exists event, ex. auto.
  - right. right. exists event. auto.
Qed.

(** ** One storage call of a handler in flight *)

(** [existing.save()] writes the modified paths, unless the call fails. *)
Lemma save_cases ex m w :
  store (snd (EntryModel.save ex m w)) = store w
  \/ store (snd (EntryModel.save ex m w))
     = EntryModel.updateOne (_id ex) m (store w).
Proof.
  destruct w as [s fs t]. unfold EntryModel.save, roundTrip. run_m.
  destruct fs as [|[] fs]; simpl; auto.
Qed.

(** [Entry.create] inserts the document of a creatable entry whose payer
    the unique index does not know, or nothing. *)
Lemma create_cases entry w :
  store (snd (EntryModel.create entry w)) = store w
  \/ (creatable entry = true
      /\ ~ In (or_empty (e_stripeCustomerID entry))
              (map stripeCustomerID (entries (store w)))
      /\ store (snd (EntryModel.create entry w))
         = EntryModel.insertOne
             (documentOf entry (nextId (store w)) (now w)) (store w)).
Proof.
  destruct w as [s fs t]. unfold EntryModel.create, roundTrip. run_m.
  destruct (EntryModel.required "name" _) as [?|nm] eqn:Hn; simpl; auto.
  destruct (EntryModel.required "locationLabel" _) as [?|loc] eqn:Hl;
    simpl; auto.
  destruct (EntryModel.castPosition _) as [?|pos] eqn:Hp; simpl; auto.
  destruct (EntryModel.required "stripeCustomerID" _) as [?|cid] eqn:Hc;
    simpl; auto.
  apply truthy_required in Hn, Hl, Hc.
  destruct Hn as [Tn En], Hl as [Tl El], Hc as [Tc Ec].
  apply castPosition_inr in Hp. destruct Hp as [Ep Tp].
  assert (Cr : creatable entry = true)
    by (unfold creatable; now rewrite Tn, Tl, Tc, Tp).
  assert (Doc : {| _id := nextId s; name := nm; amount := e_amount entry;
                   message := e_message entry; locationLabel := loc;
                   position := Some pos; createdAt := t;
                   stripeCustomerID := cid |}
                = documentOf entry (nextId s) t)
    by (unfold documentOf; now rewrite En, El, Ec, Ep).
  destruct fs as [|[] fs]; simpl; auto;
    (destruct (existsb _ (entries s)) eqn:X; simpl; auto;
     right; split; [exact Cr|]; split;
     [rewrite Ec; now apply existsb_payer_false|now rewrite Doc]).
Qed.

(** What one served storage call does to the store: nothing, the write of
    the top-up a handler computed from the document it loaded, the insert of
    a new payer's document, or a step on the record of events. *)
Lemma step_effect h w :
  let s := store w in
  let s' := store (snd (step h w)) in
  s' = s
  \/ (exists event ex,
        h = Overlap.Loaded event (Some ex)
        /\ s' = EntryModel.updateOne (_id ex)
                  (LeaderboardService.topUp ex
                     (entryDataOf parseFloat (data_object event))) s)
  \/ (exists event,
        h = Overlap.Loaded event None
        /\ creatable (entryDataOf parseFloat (data_object event)) = true
        /\ ~ In (or_empty (md_stripeCustomerID (metadata (data_object event))))
                (map stripeCustomerID (entries s))
        /\ s' = EntryModel.insertOne
                  (documentOf (entryDataOf parseFloat (data_object event))
                              (nextId s) (now w)) s)
  \/ (exists event,
        h = Overlap.Mutated event /\ recordStep (ev_id event) s s').
Proof.
  cbv zeta. destruct h as [event|event|event [ex|]|event|r].
  - left. destruct w as [s fs t].
    unfold Overlap.step, ProcessedEventModel.findOne, roundTrip. run_m.
    destruct fs as [|[] fs]; simpl; try reflexivity;
      destruct (find _ _); reflexivity.
  - left. destruct w as [s fs t].
    unfold Overlap.step, EntryModel.findOne, roundTrip. run_m.
    destruct fs as [|[] fs]; reflexivity.
  - unfold Overlap.step, LeaderboardService.applyEntry, try_catch, bind, ret.
    pose proof (save_cases ex
                  (LeaderboardService.topUp ex
                     (entryDataOf parseFloat (data_object event))) w) as H.
    destruct (EntryModel.save _ _ w) as [[e|[]] w']; simpl in *;
      (destruct H as [H|H]; [now left|right; left; exists event, ex; auto]).
  - unfold Overlap.step, LeaderboardService.applyEntry, try_catch, bind, ret.
    pose proof (create_cases (entryDataOf parseFloat (data_object event)) w)
      as H.
    destruct (EntryModel.create _ w) as [[e|[]] w']; simpl in *;
      (destruct H as [H|[Cr [N H]]];
       [now left|right; right; left; exists event; auto]).
  - right. right. right. exists event. split; [reflexivity|].
    unfold Overlap.step, bind, ret.
    pose proof (markProcessed_recordStep event w) as [T R].
    destruct (markProcessed event w) as [[e|[]] w']; simpl in *;
      [discriminate|exact R].
  - now left.
Qed.

(** A handler in flight never throws out of a storage call, and goes on
    with the event it had. *)
Lemma step_total h w :
  exists h',
    fst (step h w) = inr h'
    /\ forall e, Overlap.eventOf h' = Some e -> Overlap.eventOf h = Some e.
Proof.
  destruct h as [event|event|event existing|event|r];
    unfold Overlap.step, try_catch, bind, ret.
  - destruct (ProcessedEventModel.findOne (ev_id event) w)
      as [[e|[x|]] w1]; simpl; try (eexists; split; [reflexivity|]);
      simpl; try discriminate.
    destruct (ev_type event =? "checkout.session.completed"); auto.
  - destruct (EntryModel.findOne _ w) as [[e|x] w1]; simpl;
      eexists; (split; [reflexivity|]); auto.
  - destruct (LeaderboardService.applyEntry _ existing w) as [[e|[]] w1];
      simpl; eexists; (split; [reflexivity|]); auto.
  - pose proof (markProcessed_recordStep event w) as [T _].
    destruct (markProcessed event w) as [[e|[]] w1]; simpl in *;
      [discriminate|].
    eexists. split; [reflexivity|]. simpl. discriminate.
  - eexists. split; [reflexivity|]. auto.
Qed.

Lemma updateOne_wf id m s : wf s -> wf (EntryModel.updateOne id m s).
Proof.
  intros [Hp Hi Hf He]. constructor.
  - now rewrite updateOne_payers.
  - now rewrite updateOne_ids.
  - simpl. apply Forall_forall. intros d Hd. apply in_map_iff in Hd.
    destruct Hd as [d0 [E Hd0]]. rewrite Forall_forall in Hf.
    specialize (Hf d0 Hd0). subst d.
    destruct (Nat.eqb (_id d0) id); simpl; assumption.
  - assumption.
Qed.

Lemma insertOne_wf entry t s :
  wf s ->
  ~ In (or_empty (e_stripeCustomerID entry))
       (map stripeCustomerID (entries s)) ->
  wf (EntryModel.insertOne (documentOf entry (nextId s) t) s).
Proof.
  intros [Hp Hi Hf He] Hn. constructor; simpl.
  - rewrite map_app. simpl. now apply NoDup_snoc.
  - rewrite map_app. simpl. apply NoDup_snoc; [assumption|].
    intros Hin. apply in_map_iff in Hin. destruct Hin as [d [E Hd]].
    rewrite Forall_forall in Hf. specialize (Hf d Hd). lia.
  - apply Forall_app. split.
    + eapply Forall_impl; [|exact Hf]. simpl. intros; lia.
    + repeat constructor.
  - assumption.
Qed.

(** The unique indexes survive every served storage call. *)
Lemma step_wf h w : wf (store w) -> wf (store (snd (step h w))).
Proof.
  intros W.
  destruct (step_effect h w)
    as [E|[[event [ex [_ E]]]|[[event [_ [_ [N E]]]]|[event [_ R]]]]];
    cbv zeta in *.
  - now rewrite E.
  - rewrite E. now apply updateOne_wf.
  - rewrite E. now apply insertOne_wf.
  - eapply recordStep_wf; eauto.
Qed.

Lemma served_store h w h' w' :
  step h w = (inr h', w') -> store w' = store (snd (step h w)).
Proof. now intros ->. Qed.

Lemma running_wf s pool : running s pool -> wf s.
Proof.
  induction 1 as [|s pool req event _ IH _|s before h after plan t h' w' _ IH S].
  - constructor; simpl; constructor.
  - exact IH.
  - rewrite (served_store _ _ _ _ S). now apply (step_wf h (world s plan t)).
Qed.

(** The unique indexes hold in every store the gateway can produce. *)
Lemma reachable_wf s : reachable s -> wf s.
Proof. intros [pool R]. exact (running_wf s pool R). Qed.

(** Every handler in flight works on an event that verified. *)
Lemma running_verified s pool :
  running s pool ->
  Forall (fun h => forall e, Overlap.eventOf h = Some e ->
                     exists req,
                       constructEvent (req_body req) (stripe_signature req)
                                      secret = inr e) pool.
Proof.
  induction 1 as [|s pool req event _ IH C|s before h after plan t h' w' _ IH S].
  - constructor.
  - constructor; [|exact IH]. simpl. intros e He. inversion He; subst.
    now exists req.
  - apply Forall_app in IH. destruct IH as [Hb Hh].
    inversion Hh as [|? ? Hh1 Ha]; subst.
    apply Forall_app. split; [exact Hb|]. constructor; [|exact Ha].
    intros e He. apply Hh1.
    destruct (step_total h (world s plan t)) as [h1 [F Hev]].
    rewrite S in F. simpl in F. inversion F; subst h1. now apply Hev.
Qed.

(** A handler whose storage calls are served one after the other, with
    nothing in between, is one more run of the gateway. *)
Lemma served_head s pool h w h' w' :
  store w = s ->
  running s (h :: pool) ->
  step h w = (inr h', w') ->
  running (store w') (h' :: pool).
Proof.
  intros <- R S. destruct w as [s0 fs t].
  exact (running_served secret constructEvent parseFloat
           s0 [] h pool fs t h' w' R S).
Qed.

(** ** The ledger invariants *)

(** C4 as the code has it. In every store the gateway can reach, with
    handlers overlapping in any way, there is at most one entry per payer
    (the [stripeCustomerID]s are pairwise distinct). When a storage call of
    a handler in flight is served and an entry appears under a payer that
    had none, that handler is in the creation branch of [addEntry] for an
    event that verified, and the entry carries exactly the amount of that
    event, one hundredth of [amount_total]. A delivery that is handled
    without any other handler's storage call in between, for an event with
    a non-negative amount, keeps every entry with a total that is not
    smaller. *)
Theorem ledger_invariants (s : Store) :
  reachable s ->
  NoDup (map stripeCustomerID (entries s))
  /\ (forall pool h plan t x',
        running s pool ->
        In h pool ->
        In x' (entries (store (snd (step h (world s plan t))))) ->
        ~ In (stripeCustomerID x') (map stripeCustomerID (entries s)) ->
        exists req event,
          constructEvent (req_body req) (stripe_signature req) secret
          = inr event
          /\ h = Overlap.Loaded event None
          /\ amount x' = (inject_Z (amount_total (data_object event)) / 100)%Q
          /\ md_stripeCustomerID (metadata (data_object event))
             = Some (stripeCustomerID x'))
  /\ (forall d,
        (forall event,
            verified d = inr event ->
            (0 <= amount_total (data_object event))%Z) ->
        grows s (snd (deliver d s))
        /\ forall x',
             In x' (entries (snd (deliver d s))) ->
             ~ In (stripeCustomerID x') (map stripeCustomerID (entries s)) ->
             exists event,
               verified d = inr event
               /\ amount x'
                  = (inject_Z (amount_total (data_object event)) / 100)%Q
               /\ md_stripeCustomerID (metadata (data_object event))
                  = Some (stripeCustomerID x')).
Proof.
  intros R. pose proof (reachable_wf s R) as W.
  split; [apply (wf_payers _ W)|]. split.
  - intros pool h plan t x' Rn Hh Hx Hn.
    pose proof (running_verified s pool Rn) as V.
    rewrite Forall_forall in V. specialize (V h Hh).
    destruct (step_effect h (world s plan t))
      as [E|[[event [ex [_ E]]]|[[event [Hl [Cr [_ E]]]]|[event [_ Rs]]]]];
      cbv zeta in *; simpl store in *.
    + exfalso. apply Hn. rewrite E in Hx. now apply in_map.
    + exfalso. apply Hn. rewrite E in Hx.
      rewrite <- (updateOne_payers (_id ex)
                    (LeaderboardService.topUp ex
                       (entryDataOf parseFloat (data_object event))) s).
      now apply in_map.
    + subst h. destruct (V event eq_refl) as [req C].
      exists req, event. split; [exact C|]. split; [reflexivity|].
      rewrite E in Hx. simpl in Hx. apply in_app_or in Hx.
      destruct Hx as [Hx|[<-|[]]]; [exfalso; apply Hn; now apply in_map|].
      split; [reflexivity|].
      apply creatable_fields in Cr. destruct Cr as [_ [_ [Hc _]]].
      apply required_inr in Hc. destruct Hc as [Hc _]. exact Hc.
    + exfalso. apply Hn. rewrite (recordStep_entries _ _ _ Rs) in Hx.
      now apply in_map.
  - intros d Hpos.
    destruct (deliver_outcome secret constructEvent parseFloat d s)
      as [msg C|event C P|event C P I|event s1 s' C P N L Rs];
      try (split; [apply grows_refl|];
           intros x' Hx Hn; exfalso; apply Hn; now apply in_map).
    assert (Ha : (0 <= e_amount (entryDataOf parseFloat (data_object event)))%Q).
    { simpl. specialize (Hpos event C).
      unfold Qdiv. apply Qmult_le_0_compat; [|discriminate].
      unfold Qle. simpl. lia. }
    pose proof (recordStep_entries _ _ _ Rs) as E.
    unfold grows. rewrite E.
    destruct (ev_type event =? "checkout.session.completed").
    + split; [exact (ledgerStep_grows _ _ _ _ L W Ha)|].
      intros x' Hx Hn. exists event. split; [exact C|].
      destruct (ledgerStep_new _ _ _ _ x' L Hx Hn) as [A1 [A2 _]].
      split; [exact A1|exact A2].
    + subst s1. split; [apply grows_refl|].
      intros x' Hx Hn; exfalso; apply Hn; now apply in_map.
Qed.


(** ** Idempotence *)


(** ** What no delivery undoes *)

Lemma updateOne_frozen id m s :
  map frozen (entries (EntryModel.updateOne id m s)) = map frozen (entries s).
Proof.
  simpl. rewrite map_map. apply map_ext. intros d.
  destruct (Nat.eqb (_id d) id); reflexivity.
Qed.

Lemma deliver_appends d s :
  exists created recorded,
    map frozen (entries (snd (deliver d s)))
    = map frozen (entries s) ++ created
    /\ processedEvents (snd (deliver d s)) = processedEvents s ++ recorded
    /\ (length created <= 1)%nat /\ (length recorded <= 1)%nat.
Proof.
  destruct (deliver_step d s) as [s1 [L R]].
  assert (L1 : exists created,
             map frozen (entries s1) = map frozen (entries s) ++ created
             /\ processedEvents s1 = processedEvents s
             /\ (length created <= 1)%nat).
  { destruct L as [->|[[event [ex [_ [_ ->]]]]|[event [_ [_ ->]]]]].
    - exists []. rewrite app_nil_r. auto.
    - exists []. rewrite app_nil_r, updateOne_frozen. auto.
    - eexists [_]. simpl. rewrite map_app. simpl. auto. }
  destruct L1 as [created [E1 [P1 Hc]]].
  destruct R as [|Hn Hne].
  - exists created, []. rewrite app_nil_r. auto.
  - exists created, [match verified d with
                     | inr event => ev_id event | inl _ => "" end].
    simpl. rewrite P1. auto.
Qed.

(** X1. The ledger and the record of events only grow at their ends. Whatever
    callbacks arrive, verified or not, under whatever storage faults: the
    entries that were there are still there, in the same places, each with
    the [_id], the payer, the name, the location label, the position and the
    creation date it had; the events on record are still on record; and each
    callback adds at most one entry and at most one record. *)
Theorem ledger_is_append_only (ds : list Delivery) (s : Store) :
  exists created recorded,
    map frozen (entries (deliverAll ds s))
    = map frozen (entries s) ++ created
    /\ processedEvents (deliverAll ds s) = processedEvents s ++ recorded
    /\ (length created <= length ds)%nat
    /\ (length recorded <= length ds)%nat.
Proof.
  revert s. induction ds as [|d ds IH]; intros s; simpl.
  - exists [], []. rewrite !app_nil_r. auto.
  - destruct (deliver_appends d s) as [c1 [r1 [E1 [P1 [Lc1 Lr1]]]]].
    destruct (IH (snd (deliver d s))) as [c2 [r2 [E2 [P2 [Lc2 Lr2]]]]].
    exists (c1 ++ c2), (r1 ++ r2).
    rewrite E2, E1, P2, P1, <- !app_assoc, !length_app.
    repeat split; lia.
Qed.

(** ** Totals over any number of deliveries *)

Lemma grows_trans s1 s2 s3 : grows s1 s2 -> grows s2 s3 -> grows s1 s3.
Proof.
  intros G1 G2 x Hx.
  destruct (G1 x Hx) as [y [Hy [I1 [K1 A1]]]].
  destruct (G2 y Hy) as [z [Hz [I2 [K2 A2]]]].
  exists z. repeat split; try congruence. eapply Qle_trans; eauto.
Qed.

Lemma deliver_grows d s :
  wf s ->
  (forall event, verified d = inr event ->
                 (0 <= amount_total (data_object event))%Z) ->
  grows s (snd (deliver d s)).
Proof.
  intros W Hpos.
  destruct (deliver_outcome secret constructEvent parseFloat d s)
    as [msg C|event C P|event C P I|event s1 s' C P N L Rs];
    try apply grows_refl.
  assert (Ha : (0 <= e_amount (entryDataOf parseFloat (data_object event)))%Q).
  { simpl. specialize (Hpos event C).
    unfold Qdiv. apply Qmult_le_0_compat; [|discriminate].
    unfold Qle. simpl. lia. }
  pose proof (recordStep_entries _ _ _ Rs) as E.
  unfold grows. rewrite E.
  destruct (ev_type event =? "checkout.session.completed").
  - exact (ledgerStep_grows _ _ _ _ L W Ha).
  - subst s1. apply grows_refl.
Qed.

(** X2. Starting from any store the gateway can reach, over any sequence of
    callbacks that are handled one after the other (no storage call of
    another handler between those of one) and whose verified events carry
    non-negative amounts, every entry stays, under its [_id] and payer, with
    a total that is not smaller than it was. *)
Theorem totals_never_decrease (ds : list Delivery) (s : Store) :
  reachable s ->
  Forall (fun d => forall event,
              verified d = inr event ->
              (0 <= amount_total (data_object event))%Z) ds ->
  grows s (deliverAll ds s).
Proof.
  intros R. apply reachable_wf in R. revert s R.
  induction ds as [|d ds IH]; intros s W H; simpl.
  - apply grows_refl.
  - inversion H as [|? ? Hd Hds]; subst.
    eapply grows_trans.
    + apply deliver_grows; eauto.
    + apply IH; [|exact Hds]. now apply deliver_wf.
Qed.

(** ** Events that are not completed checkouts *)

(** X3. An event of another type than [checkout.session.completed], verified
    and not on record, never touches the ledger. When the dedup lookup
    fails, it is answered 500 and nothing is stored. Otherwise it is
    answered 200, and it is put on record (so that it is skipped from then
    on) when its identifier is not empty and the insert does not fail; when
    the identifier is empty or the insert fails the store is left exactly as
    it was. *)
Theorem unhandled_event_is_only_recorded (d : Delivery) (s : Store)
    (event : StripeEvent) :
  verified d = inr event ->
  ev_type event <> "checkout.session.completed" ->
  ~ In (ev_id event) (processedEvents s) ->
  entries (snd (deliver d s)) = entries s
  /\ (hd false (d_faults d) = true ->
      deliver d s
      = (Some {| status := 500; body := Text "Internal Server Error" |}, s))
  /\ (hd false (d_faults d) = false ->
      fst (deliver d s)
      = Some {| status := 200; body := Text "Event received" |}
      /\ (ev_id event <> "" -> hd false (tl (d_faults d)) = false ->
          snd (deliver d s) = ProcessedEventModel.insertOne (ev_id event) s)
      /\ (ev_id event = "" \/ hd false (tl (d_faults d)) = true ->
          snd (deliver d s) = s)).
Proof.
  intros C T N.
  destruct (hd false (d_faults d)) eqn:P.
  { assert (D : deliver d s
                = (Some {| status := 500; body := Text "Internal Server Error" |},
                   s)).
    { unfold Gateway.deliver, Gateway.webhook. rewrite C.
      unfold dedupCheck, ProcessedEventModel.findOne, roundTrip. run_m.
      destruct (d_faults d) as [|[] fs]; simpl in *; try discriminate.
      reflexivity. }
    rewrite D. split; [reflexivity|]. split; [reflexivity|discriminate]. }
  rewrite (deliver_fresh secret constructEvent parseFloat d s event C N P).
  simpl fst. simpl snd.
  assert (H : handleEvent parseFloat event
                (world s (tl (d_faults d)) (d_time d))
              = (inr tt, world s (tl (d_faults d)) (d_time d))).
  { unfold handleEvent.
    destruct (ev_type event =? "checkout.session.completed") eqn:E;
      [apply String.eqb_eq in E; contradiction|reflexivity]. }
  rewrite H. simpl snd.
  split.
  { destruct (markProcessed_recordStep event
                (world s (tl (d_faults d)) (d_time d))) as [_ R].
    now rewrite (recordStep_entries _ _ _ R). }
  split; [discriminate|]. intros _.
  split; [reflexivity|]. split.
  - intros Hne Hok. now rewrite (markProcessed_inserts event s _ _ Hne N Hok).
  - intros Hbad.
    unfold markProcessed, ProcessedEventModel.create, roundTrip. run_m.
    destruct (ev_id event =? "") eqn:E; [reflexivity|].
    destruct Hbad as [Hbad|Hbad];
      [rewrite Hbad in E; discriminate|].
    destruct (tl (d_faults d)) as [|[] fs]; simpl in *;
      try discriminate; reflexivity.
Qed.


(** ** A payment that cannot be stored *)

(** X4. A completed checkout whose payer has no entry and whose metadata does
    not give [Entry.create] what the schema requires (no name, no location
    label, no payer identity, or coordinates that are not numbers) is
    answered 200 and put on record without any entry being created; every
    later delivery of the same request then finds the record and changes
    nothing. The payment is never credited. *)
Theorem uncreatable_payment_is_dropped (d : Delivery) (s : Store)
    (event : StripeEvent) :
  verified d = inr event ->
  ev_type event = "checkout.session.completed" ->
  ~ In (ev_id event) (processedEvents s) ->
  ev_id event <> "" ->
  d_faults d = [] ->
  find (EntryModel.matches
          (md_stripeCustomerID (metadata (data_object event))))
       (entries s) = None ->
  creatable (entryDataOf parseFloat (data_object event)) = false ->
  deliver d s
  = (Some {| status := 200; body := Text "Event received" |},
     ProcessedEventModel.insertOne (ev_id event) s)
  /\ (forall d',
        d_request d' = d_request d ->
        snd (deliver d' (ProcessedEventModel.insertOne (ev_id event) s))
        = ProcessedEventModel.insertOne (ev_id event) s).
Proof.
  intros C T N Hne P F Cr. split.
  - rewrite (deliver_fresh secret constructEvent parseFloat d s event C N)
      by now rewrite P.
    rewrite P. simpl tl.
    pose proof (handleEvent_no_faults parseFloat event s (d_time d)) as Hf.
    pose proof (handleEvent_ledgerStep parseFloat event
                  (world s [] (d_time d))) as [_ [Hn _]].
    pose proof (handleEvent_cases event s [] (d_time d)) as Hc.
    cbv zeta in Hc.
    destruct (handleEvent parseFloat event _) as [r [s1 f1 t1]].
    simpl in *. subst f1 t1.
    assert (s1 = s) as ->.
    { destruct Hc as [H|[[ex [_ [F' _]]]|[_ [_ [Cr' _]]]]]; auto; congruence. }
    change {| store := s; faults := []; now := d_time d |}
      with (world s [] (d_time d)).
    now rewrite (markProcessed_inserts event s [] _ Hne N eq_refl).
  - intros d' Hreq. apply deliver_kept. intros e He _.
    rewrite Hreq, C in He. inversion He; subst e.
    simpl. apply in_or_app. right. now left.
Qed.

(** ** A record that cannot be written *)

Lemma addEntry_topUp_run_ok entry s plan t ex :
  find (EntryModel.matches (e_stripeCustomerID entry)) (entries s) = Some ex ->
  LeaderboardService.addEntry entry (world s (false :: false :: plan) t)
  = (inr tt, world (EntryModel.updateOne (_id ex)
                      (LeaderboardService.topUp ex entry) s) plan t).
Proof.
  intros F.
  unfold LeaderboardService.addEntry, LeaderboardService.addEntry_try,
    EntryModel.findOne, roundTrip.
  run_m. rewrite F. reflexivity.
Qed.

Lemma markProcessed_fault event s plan t :
  store (snd (markProcessed event (world s (true :: plan) t))) = s.
Proof.
  unfold markProcessed, ProcessedEventModel.create, roundTrip. run_m.
  destruct (ev_id event =? ""); reflexivity.
Qed.

(** X5. When the insert of step 3 fails after a top-up went through, the
    failure is only logged: the first delivery is answered 200, the total
    has grown by the amount, and the event is not on record. A second
    delivery of the same event is then handled as new and adds the amount
    again, so the payer is credited twice. *)
Theorem failed_record_credits_twice (req : Request) (event : StripeEvent)
    (t1 t2 : Z) (s : Store) (k : string) (ex : Entry) :
  constructEvent (req_body req) (stripe_signature req) secret = inr event ->
  ev_type event = "checkout.session.completed" ->
  ~ In (ev_id event) (processedEvents s) ->
  md_stripeCustomerID (metadata (data_object event)) = Some k ->
  entryOf k s = Some ex ->
  let a := (inject_Z (amount_total (data_object event)) / 100)%Q in
  let first := {| d_request := req;
                  d_faults := [false; false; false; true];
                  d_time := t1 |} in
  let second := {| d_request := req; d_faults := []; d_time := t2 |} in
  fst (deliver first s)
  = Some {| status := 200; body := Text "Event received" |}
  /\ processedEvents (snd (deliver first s)) = processedEvents s
  /\ (totalOf k (snd (deliver first s)) == amount ex + a)%Q
  /\ fst (deliver second (snd (deliver first s)))
     = Some {| status := 200; body := Text "Event received" |}
  /\ (totalOf k (snd (deliver second (snd (deliver first s))))
      == amount ex + a + a)%Q.
Proof.
  intros C T N K F a first second.
  set (entry := entryDataOf parseFloat (data_object event)).
  assert (Fe : find (EntryModel.matches (e_stripeCustomerID entry)) (entries s)
               = Some ex) by (simpl; rewrite K; exact F).
  set (s1 := EntryModel.updateOne (_id ex) (LeaderboardService.topUp ex entry) s).
  assert (D1 : deliver first s
               = (Some {| status := 200; body := Text "Event received" |}, s1)).
  { rewrite (deliver_fresh secret constructEvent parseFloat first s event C N
               eq_refl).
    simpl tl. unfold handleEvent. rewrite T. simpl. unfold try_catch at 1.
    fold entry.
    rewrite (addEntry_topUp_run_ok entry s [true] t1 ex Fe).
    simpl snd. now rewrite markProcessed_fault. }
  rewrite D1. simpl fst. simpl snd.
  assert (F1 : entryOf k s1
               = Some (EntryModel.applyModified
                         (LeaderboardService.topUp ex entry) ex))
    by (apply entryOf_updateOne; exact F).
  split; [reflexivity|]. split; [reflexivity|]. split.
  { unfold totalOf. rewrite F1. simpl. reflexivity. }
  assert (N1 : ~ In (ev_id event) (processedEvents s1)) by exact N.
  destruct (deliver_checkout_entries secret constructEvent parseFloat
              second s1 event C T N1 eq_refl) as [R E].
  split; [exact R|].
  simpl tl in E. simpl d_time in E. fold entry in E.
  rewrite (addEntry_topUp_run entry s1 t2 _) in E
    by (simpl; rewrite K; exact F1).
  unfold world in E. cbn [snd store] in E.
  pose proof (entryOf_updateOne k s1 _
                (LeaderboardService.topUp
                   (EntryModel.applyModified
                      (LeaderboardService.topUp ex entry) ex) entry) F1) as F2.
  unfold totalOf, entryOf in *. rewrite E, F2. simpl. reflexivity.
Qed.


(** ** The shape of every stored entry *)

Lemma applyModified_wellFormed m d :
  wellFormed d -> wellFormed (EntryModel.applyModified m d).
Proof. intros H. exact H. Qed.

Lemma documentOf_wellFormed session id t :
  creatable (entryDataOf parseFloat session) = true ->
  wellFormed (documentOf (entryDataOf parseFloat session) id t).
Proof.
  intros Cr. pose proof Cr as Cr'. apply creatable_fields in Cr'.
  destruct Cr' as [Hn [Hl [Hc Hp]]].
  apply required_inr in Hn, Hl, Hc.
  destruct Hn as [_ Hn], Hl as [_ Hl], Hc as [_ Hc].
  unfold wellFormed. simpl name. simpl locationLabel. simpl stripeCustomerID.
  repeat split; auto.
  unfold documentOf, positionOf. simpl position.
  unfold creatable in Cr. simpl e_position in *.
  destruct (truthy (md_lat (metadata session))
            && truthy (md_lng (metadata session))).
  - simpl in *.
    destruct (parseFloat (or_empty (md_lng (metadata session)))) as [ln|];
      [|rewrite andb_false_r in Cr; discriminate].
    destruct (parseFloat (or_empty (md_lat (metadata session)))) as [la|];
      [|rewrite andb_false_r in Cr; discriminate].
    exists (Some [ln; la]). split; [reflexivity|]. right. eauto.
  - exists None. auto.
Qed.

Lemma deliver_wellFormed d s :
  Forall wellFormed (entries s) ->
  Forall wellFormed (entries (snd (deliver d s))).
Proof.
  intros H. destruct (deliver_step d s) as [s1 [L R]].
  rewrite (recordStep_entries _ _ _ R).
  destruct L as [->|[[event [ex [_ [_ ->]]]]|[event [_ [Cr ->]]]]].
  - exact H.
  - simpl. apply Forall_forall. intros x Hx. apply in_map_iff in Hx.
    destruct Hx as [y [<- Hy]]. rewrite Forall_forall in H.
    destruct (Nat.eqb (_id y) (_id ex)); [apply applyModified_wellFormed|];
      auto.
  - simpl. apply Forall_app. split; [exact H|].
    constructor; [|constructor]. now apply documentOf_wellFormed.
Qed.

(** The same over any overlap of handlers. *)
Lemma step_wellFormed h w :
  Forall wellFormed (entries (store w)) ->
  Forall wellFormed (entries (store (snd (step h w)))).
Proof.
  intros H.
  destruct (step_effect h w)
    as [E|[[event [ex [_ E]]]|[[event [_ [Cr [_ E]]]]|[event [_ R]]]]];
    cbv zeta in *.
  - now rewrite E.
  - rewrite E. simpl. apply Forall_forall. intros x Hx. apply in_map_iff in Hx.
    destruct Hx as [y [<- Hy]]. rewrite Forall_forall in H.
    destruct (Nat.eqb (_id y) (_id ex)); [apply applyModified_wellFormed|];
      auto.
  - rewrite E. simpl. apply Forall_app. split; [exact H|].
    constructor; [|constructor]. now apply documentOf_wellFormed.
  - now rewrite (recordStep_entries _ _ _ R).
Qed.

Lemma reachable_wellFormed s :
  reachable s -> Forall wellFormed (entries s).
Proof.
  intros [pool R].
  induction R as [|s pool req event _ IH _|s before h after plan t h' w' _ IH S].
  - constructor.
  - exact IH.
  - rewrite (served_store _ _ _ _ S).
    now apply (step_wellFormed h (world s plan t)).
Qed.

Lemma wellFormed_coordinates d :
  wellFormed d ->
  (LeaderboardService.lat (LeaderboardService.toRow d) = None
   /\ LeaderboardService.lng (LeaderboardService.toRow d) = None
   /\ position d = Some {| pos_type := "Point"; coordinates := None |})
  \/ (exists la ln,
        LeaderboardService.lat (LeaderboardService.toRow d) = Some la
        /\ LeaderboardService.lng (LeaderboardService.toRow d) = Some ln
        /\ position d = Some {| pos_type := "Point";
                                coordinates := Some [ln; la] |}).
Proof.
  intros [_ [_ [_ [cs [Hp [->|[ln [la ->]]]]]]]];
    unfold LeaderboardService.toRow, LeaderboardService.coordinate; simpl;
    rewrite Hp; simpl.
  - left. auto.
  - right. exists la, ln. auto.
Qed.

(** X7. Every entry the gateway has stored, in any store it can reach with
    handlers overlapping in any way, has a non-empty name, location label
    and payer identity, and a position of type ['Point'] that has either no
    [coordinates] or exactly two numbers; so every row of the read route has
    both [lat] and [lng], equal to [coordinates[1]] and [coordinates[0]], or
    neither of them. *)
Theorem stored_entries_are_well_formed (s : Store) :
  reachable s ->
  Forall (fun d =>
            wellFormed d
            /\ (LeaderboardService.lat (LeaderboardService.toRow d) = None
                <-> LeaderboardService.lng (LeaderboardService.toRow d) = None))
         (entries s).
Proof.
  intros R. pose proof (reachable_wellFormed s R) as W.
  eapply Forall_impl; [|exact W]. intros d Hd. split; [exact Hd|].
  destruct (wellFormed_coordinates d Hd) as [[A [B _]]|[la [ln [A [B _]]]]];
    rewrite A, B; split; intros; auto; discriminate.
Qed.

(** ** What changes on the page *)

Lemma sortDesc_snoc_newest {A K} (key : A -> K) (leb : K -> K -> bool) l x :
  (forall a, In a l -> leb (key x) (key a) = false) ->
  sortDesc key leb (l ++ [x]) = x :: sortDesc key leb l.
Proof.
  induction l as [|a l IH]; intros H; simpl; [reflexivity|].
  rewrite IH by (intros b Hb; apply H; now right).
  simpl. rewrite (H a) by now left. reflexivity.
Qed.

Lemma shown_frozen d d' :
  frozen d = frozen d' ->
  shown (received (LeaderboardService.toRow d))
  = shown (received (LeaderboardService.toRow d')).
Proof.
  unfold frozen, shown, received, LeaderboardService.toRow,
    LeaderboardService.coordinate.
  simpl. intros H. inversion H. reflexivity.
Qed.

Lemma pinOf_shown e e' :
  shown e = shown e' -> Frontend.pinOf e = Frontend.pinOf e'.
Proof.
  unfold shown, Frontend.pinOf. intros H. inversion H. reflexivity.
Qed.

Lemma page_shown l l' :
  map shown l = map shown l' ->
  Frontend.globeData l = Frontend.globeData l'
  /\ Frontend.banner l = Frontend.banner l'
  /\ (forall ready frame,
        Frontend.globeUpdate l ready frame
        = Frontend.globeUpdate l' ready frame).
Proof.
  intros H. split; [|split].
  - revert l' H. induction l as [|e l IH]; intros [|e' l'] H;
      simpl in *; try discriminate; [reflexivity|].
    assert (He : shown e = shown e') by congruence.
    assert (Hl : map shown l = map shown l') by congruence.
    rewrite (pinOf_shown e e' He), (IH l' Hl). reflexivity.
  - destruct l as [|e l], l' as [|e' l']; simpl in *; try discriminate;
      [reflexivity|].
    assert (He : shown e = shown e') by congruence.
    unfold shown in He. inversion He. congruence.
  - intros ready frame.
    destruct l as [|e l], l' as [|e' l']; simpl in *; try discriminate;
      [reflexivity|].
    assert (He : shown e = shown e') by congruence.
    unfold shown in He. inversion He. congruence.
Qed.

(** X8. A delivery that adds no entry (a top-up, a duplicate, a rejected or a
    failed one) leaves the ranking and everything the page shows besides
    totals and messages as they were: the rows keep their order, names,
    location labels and coordinates, so the pins of the globe, the banner of
    the current owner and the message posted to the globe frame are the
    same. In particular a top-up does not make its payer the current
    owner. *)
Theorem delivery_without_creation_keeps_the_page (d : Delivery) (s : Store) :
  length (entries (snd (deliver d s))) = length (entries s) ->
  map frozen (ranked (snd (deliver d s))) = map frozen (ranked s)
  /\ Frontend.globeData (pageOf (snd (deliver d s)))
     = Frontend.globeData (pageOf s)
  /\ Frontend.banner (pageOf (snd (deliver d s))) = Frontend.banner (pageOf s)
  /\ (forall ready frame,
        Frontend.globeUpdate (pageOf (snd (deliver d s))) ready frame
        = Frontend.globeUpdate (pageOf s) ready frame).
Proof.
  intros Hlen.
  assert (E : exists f,
             (forall x, frozen (f x) = frozen x)
             /\ entries (snd (deliver d s)) = map f (entries s)).
  { destruct (deliver_step d s) as [s1 [L R]].
    rewrite (recordStep_entries _ _ _ R) in *.
    destruct L as [->|[[event [ex [_ [_ ->]]]]|[event [_ [_ ->]]]]].
    - exists (fun x => x). split; [reflexivity|]. now rewrite map_id.
    - eexists. split; [|reflexivity]. intros x. simpl.
      destruct (Nat.eqb (_id x) (_id ex)); reflexivity.
    - simpl in Hlen. rewrite length_app in Hlen. simpl in Hlen. lia. }
  destruct E as [f [Hf E]].
  assert (Rk : ranked (snd (deliver d s)) = map f (ranked s)).
  { unfold ranked. rewrite E. apply sortDesc_map. intros a.
    specialize (Hf a). unfold frozen in Hf. now inversion Hf. }
  assert (Fr : map frozen (ranked (snd (deliver d s))) = map frozen (ranked s)).
  { rewrite Rk, map_map. apply map_ext. exact Hf. }
  split; [exact Fr|]. apply page_shown.
  unfold pageOf. rewrite Rk, !map_map. apply map_ext. intros a.
  apply shown_frozen. apply Hf.
Qed.


(** ** The current owner *)

(** X9. The payer whose entry is created later than every entry there is
    becomes the first row of the leaderboard, the page's current owner, and
    the banner shows the location label and the name of the event. The
    effect on the leaderboard posts no [UPDATE_GLOBE_LOCATION] message for
    the new owner: the ref it looks for the globe frame in is attached to
    nothing. *)
Theorem newest_creator_is_current_owner (d : Delivery) (s : Store)
    (event : StripeEvent) (k : string) :
  verified d = inr event ->
  ev_type event = "checkout.session.completed" ->
  ~ In (ev_id event) (processedEvents s) ->
  d_faults d = [] ->
  md_stripeCustomerID (metadata (data_object event)) = Some k ->
  entryOf k s = None ->
  creatable (entryDataOf parseFloat (data_object event)) = true ->
  (forall x, In x (entries s) -> (createdAt x < d_time d)%Z) ->
  let md := metadata (data_object event) in
  let created :=
    documentOf (entryDataOf parseFloat (data_object event))
               (nextId s) (d_time d) in
  ranked (snd (deliver d s)) = created :: ranked s
  /\ stripeCustomerID created = k
  /\ Frontend.banner (pageOf (snd (deliver d s)))
     = Some (or_empty (md_locationLabel md), or_empty (md_name md))
  /\ (forall ready,
        Frontend.globeUpdate (pageOf (snd (deliver d s))) ready
                             Frontend.globeIframeRef = None).
Proof.
  intros C T N P K F Cr Hnew md created.
  destruct (creation_appends_document secret constructEvent parseFloat
              d s event k C T N P K F Cr) as [E _].
  fold created in E.
  assert (Rk : ranked (snd (deliver d s)) = created :: ranked s).
  { unfold ranked. rewrite E. apply sortDesc_snoc_newest.
    intros a Ha. simpl. apply Z.leb_gt. now apply Hnew. }
  split; [exact Rk|]. split; [simpl; now rewrite K|].
  pose proof Cr as Cr'. apply creatable_fields in Cr'.
  destruct Cr' as [Hn [Hl _]].
  apply truthy_required in Hn, Hl.
  destruct Hn as [Tn _], Hl as [Tl _]. simpl in Tn, Tl. fold md in Tn, Tl.
  unfold pageOf. rewrite Rk. simpl map.
  split.
  - unfold Frontend.banner, received. simpl. fold md.
    destruct (md_locationLabel md) as [l|]; [|discriminate].
    destruct (md_name md) as [n|]; [|discriminate].
    simpl in *. rewrite Tl, Tn. reflexivity.
  - intros ready. unfold Frontend.globeUpdate, Frontend.globeIframeRef.
    now rewrite andb_false_r.
Qed.

(** ** What the page gets from the read route *)

Lemma in_globeData pin l :
  In pin (Frontend.globeData l)
  <-> exists e, In e l /\ Frontend.pinOf e = Some pin.
Proof.
  induction l as [|e l IH]; simpl.
  - split; [tauto|intros [e [[] _]]].
  - destruct (Frontend.pinOf e) as [p|] eqn:Hp; simpl; rewrite IH.
    + split.
      * intros [<-|[e' [He' Hp']]]; [exists e; auto|exists e'; auto].
      * intros [e' [[<-|He'] Hp']].
        -- left. congruence.
        -- right. eauto.
    + split.
      * intros [e' [He' Hp']]. exists e'. auto.
      * intros [e' [[<-|He'] Hp']]; [congruence|eauto].
Qed.

(** X10. The read route never fails towards the page: whatever the store and
    the storage faults, [fetchLeaderboard] reaches [setLeaderboard] with an
    array. When the storage call fails that array is empty, so the page
    replaces the leaderboard it showed by an empty one; when it succeeds the page holds one row per entry, the most
    recently created first. *)
Theorem page_always_gets_an_array :
  (forall s plan t,
      exists rows,
        Frontend.fetchLeaderboard (readLeaderboard s plan t)
        = Some (JsonRows rows))
  /\ (forall s plan t,
        Frontend.fetchLeaderboard (readLeaderboard s (true :: plan) t)
        = Some (JsonRows []))
  /\ (forall s plan t,
        exists rows,
          Frontend.fetchLeaderboard (readLeaderboard s (false :: plan) t)
          = Some (JsonRows rows)
          /\ map received rows = pageOf s
          /\ Permutation (map LeaderboardService.row_entry rows) (entries s)).
Proof.
  split; [|split].
  - intros s plan t.
    unfold readLeaderboard, api_leaderboard, LeaderboardService.getLeaderboard,
      LeaderboardService.find_sort_createdAt, roundTrip.
    run_m. destruct plan as [|[] plan]; simpl; eexists; reflexivity.
  - intros s plan t. reflexivity.
  - intros s plan t. eexists. split; [reflexivity|]. split.
    + unfold pageOf, ranked. now rewrite map_map.
    + rewrite map_map. simpl. rewrite map_id. symmetry.
      apply sortDesc_perm.
Qed.

(** X11. On a reachable store the globe of the page shows exactly the entries
    that were stored with coordinates: a pin is on the globe if and only if
    some entry has the position [[lng, lat]] and the pin carries that [lat]
    and [lng], the entry's name as owner and its location label. An entry
    stored without coordinates has no pin. *)
Theorem globe_shows_the_located_entries (s : Store) (pin : Frontend.Location) :
  reachable s ->
  In pin (Frontend.globeData (pageOf s))
  <-> exists d,
        In d (entries s)
        /\ position d
           = Some {| pos_type := "Point";
                     coordinates := Some [Frontend.loc_lng pin;
                                          Frontend.loc_lat pin] |}
        /\ Frontend.owner pin = name d
        /\ Frontend.loc_locationLabel pin = Some (locationLabel d).
Proof.
  intros R. pose proof (reachable_wellFormed s R) as W.
  rewrite Forall_forall in W.
  rewrite in_globeData. unfold pageOf, ranked. split.
  - intros [e [He Hp]]. apply in_map_iff in He. destruct He as [d [<- Hd]].
    assert (Hin : In d (entries s))
      by (exact (Permutation_in _
                   (Permutation_sym (sortDesc_perm createdAt Z.leb (entries s)))
                   Hd)).
    exists d. split; [exact Hin|].
    unfold Frontend.pinOf, received in Hp. simpl in Hp.
    destruct (wellFormed_coordinates d (W d Hin))
      as [[A [B _]]|[la [ln [A [B Pn]]]]].
    + unfold LeaderboardService.toRow in A. simpl in A.
      rewrite A in Hp. discriminate.
    + unfold LeaderboardService.toRow in A, B. simpl in A, B.
      rewrite A, B in Hp. inversion Hp. simpl. auto.
  - intros [d [Hin [Pn [Ho Hl]]]].
    exists (received (LeaderboardService.toRow d)). split.
    + apply (in_map (fun x => received (LeaderboardService.toRow x))).
      eapply Permutation_in; [apply sortDesc_perm|exact Hin].
    + unfold Frontend.pinOf, received, LeaderboardService.toRow,
        LeaderboardService.coordinate. simpl. rewrite Pn. simpl.
      destruct pin as [la ln o l]. simpl in *. subst. reflexivity.
Qed.

End GatewayExtras.

(** * The earlier service *)

(** ** The top of the rich list *)

(** X12. In amount mode, when the [find] does not fail, the first entry of
    the leaderboard is an entry of the collection and no entry has a larger
    total, and the leaderboard is empty only when the collection is; when
    the [find] fails, the leaderboard is empty whatever the collection
    holds. *)
Theorem legacy_top_is_richest (coll : list Legacy.Entry) :
  Legacy.getLeaderboard coll true = []
  /\ match Legacy.getLeaderboard coll false with
     | [] => coll = []
     | top :: _ =>
         In top coll
         /\ forall x, In x coll -> (Legacy.amount x <= Legacy.amount top)%Q
     end.
Proof.
  split; [reflexivity|].
  unfold Legacy.getLeaderboard. simpl.
  pose proof (sortDesc_perm Legacy.amount Qle_bool coll) as P.
  pose proof (sortDesc_sorted Legacy.amount Qle_bool
                Qle_bool_total Qle_bool_trans coll) as S.
  destruct (sortDesc Legacy.amount Qle_bool coll) as [|top rest].
  - now apply Permutation_sym, Permutation_nil in P.
  - split.
    + eapply Permutation_in; [apply Permutation_sym, P|now left].
    + intros x Hx. apply (Permutation_in _ P) in Hx.
      inversion S as [|? ? _ Hall]; subst.
      destruct Hx as [<-|Hx]; [apply Qle_refl|].
      rewrite Forall_forall in Hall. apply Qle_bool_iff. now apply Hall.
Qed.

(** ** The earlier top-up *)

Lemma legacy_find_save key updated coll existing :
  find (LegacyService.matches key) coll = Some existing ->
  LegacyService.matches key updated = true ->
  find (LegacyService.matches key) (LegacyService.save key updated coll)
  = Some updated
  /\ length (LegacyService.save key updated coll) = length coll.
Proof.
  intros F M. induction coll as [|d rest IH]; simpl in *; [discriminate|].
  destruct (LegacyService.matches key d) eqn:E; simpl.
  - now rewrite M.
  - rewrite E. destruct (IH F) as [I1 I2]. now rewrite I2.
Qed.

Lemma legacy_find_save_other key key' updated coll :
  (forall d, LegacyService.matches key d = true ->
             LegacyService.matches key' d = false) ->
  LegacyService.matches key' updated = false ->
  find (LegacyService.matches key') (LegacyService.save key updated coll)
  = find (LegacyService.matches key') coll.
Proof.
  intros H M. induction coll as [|d rest IH]; simpl; [reflexivity|].
  destruct (LegacyService.matches key d) eqn:E; simpl.
  - rewrite M, (H d E). reflexivity.
  - rewrite IH. reflexivity.
Qed.

(** X13. A payment of a payer who has an entry, handled by the earlier service
    with no storage fault: the payer's entry gets the amount added and takes
    the link of the payment when that is not empty; its name and its message
    stay (the message of the payment is not stored); the entries of the
    other payers are what they were, and no entry is added. *)
Theorem legacy_top_up_adds_and_keeps (entry : LegacyService.EntryData)
    (coll : list Legacy.Entry) (k : string) (existing : Legacy.Entry) :
  LegacyService.e_stripeCustomerID entry = Some k ->
  find (LegacyService.matches (Some k)) coll = Some existing ->
  exists updated,
    find (LegacyService.matches (Some k))
         (fst (LegacyService.addEntry entry coll [])) = Some updated
    /\ Legacy.amount updated
       = (Legacy.amount existing + LegacyService.e_amount entry)%Q
    /\ Legacy.link updated
       = (if LegacyService.e_link entry =? "" then Legacy.link existing
          else LegacyService.e_link entry)
    /\ Legacy.name updated = Legacy.name existing
    /\ Legacy.message updated = Legacy.message existing
    /\ length (fst (LegacyService.addEntry entry coll [])) = length coll
    /\ (forall k', k' <> k ->
          find (LegacyService.matches (Some k'))
               (fst (LegacyService.addEntry entry coll []))
          = find (LegacyService.matches (Some k')) coll).
Proof.
  intros K F. exists (LegacyService.topUp existing entry).
  unfold LegacyService.addEntry. simpl hd. rewrite K, F. simpl fst.
  assert (Hk : Legacy.stripeCustomerID existing = k).
  { apply find_some in F. destruct F as [_ M]. simpl in M.
    now apply String.eqb_eq in M. }
  assert (M : LegacyService.matches (Some k)
                (LegacyService.topUp existing entry) = true)
    by (simpl; rewrite Hk; apply String.eqb_refl).
  destruct (legacy_find_save (Some k) _ coll existing F M) as [S1 S2].
  split; [exact S1|]. split; [reflexivity|]. split.
  - simpl. destruct (LegacyService.e_link entry =? ""); reflexivity.
  - repeat split; auto.
    intros k' Hk'. apply legacy_find_save_other.
    + intros d Hd. simpl in *. apply String.eqb_eq in Hd.
      rewrite Hd. apply String.eqb_neq. congruence.
    + simpl. rewrite Hk. apply String.eqb_neq. congruence.
Qed.

(** ** Rank in amount mode *)

Section LegacyRank.

Variable k : string.

#[local] Abbreviation amt := Legacy.amount.
#[local] Abbreviation isPayer := (LegacyService.matches (Some k)).
#[local] Abbreviation sorted :=
  (StronglySorted (before Legacy.amount Qle_bool)).
#[local] Abbreviation insert := (insertDesc Legacy.amount Qle_bool).
#[local] Abbreviation sort := (sortDesc Legacy.amount Qle_bool).

Lemma rankOf_matches l :
  LegacyService.rankOf k l = None <-> find isPayer l = None.
Proof.
  induction l as [|d l IH]; simpl; [tauto|].
  destruct (Legacy.stripeCustomerID d =? k); [split; discriminate|].
  destruct (LegacyService.rankOf k l); simpl;
    [split; [discriminate|]|tauto].
  intros H. apply IH in H. discriminate.
Qed.

Lemma sorted_head_max y T x :
  sorted (y :: T) -> In x (y :: T) -> Qle_bool (amt x) (amt y) = true.
Proof.
  intros S [<-|Hx].
  - apply Qle_bool_iff, Qle_refl.
  - inversion S as [|? ? _ Hall]; subst. rewrite Forall_forall in Hall.
    now apply Hall.
Qed.

(** The payer's own document, put into a ranking without the payer. *)
Lemma rank_insert_self a T :
  sorted T -> isPayer a = true -> find isPayer T = None ->
  LegacyService.rankOf k (insert a T) = Some (above (amt a) T).
Proof.
  intros S Ha. simpl in Ha. induction T as [|y T IH]; intros F; simpl.
  - now rewrite Ha.
  - simpl in F. destruct (Legacy.stripeCustomerID y =? k) eqn:Ey;
      [discriminate|].
    destruct (Qle_bool (amt y) (amt a)) eqn:E; simpl.
    + rewrite Ha. f_equal. unfold above. simpl. rewrite E. simpl.
      assert (H : forall x, In x T ->
                    negb (Qle_bool (amt x) (amt a)) = false).
      { intros x Hx. apply negb_false_iff.
        eapply Qle_bool_trans; [|exact E].
        apply (sorted_head_max y T x S). now right. }
      clear -H. induction T as [|z T IHT]; simpl; [reflexivity|].
      rewrite (H z) by now left. apply IHT. intros x Hx. apply H. now right.
    + rewrite Ey. inversion S; subst. rewrite IH by assumption.
      unfold above. simpl. rewrite E. reflexivity.
Qed.

(** Another document, put into a ranking that has the payer. *)
Lemma rank_insert_other a T x i :
  sorted T -> isPayer a = false ->
  find isPayer T = Some x ->
  LegacyService.rankOf k T = Some i ->
  LegacyService.rankOf k (insert a T)
  = Some (if Qle_bool (amt x) (amt a) then S i else i).
Proof.
  intros S Ha. simpl in Ha. revert i.
  induction T as [|y T IH]; intros i F R; simpl in *; [discriminate|].
  destruct (Qle_bool (amt y) (amt a)) eqn:E; simpl.
  - rewrite Ha.
    assert (Hx : Qle_bool (amt x) (amt a) = true).
    { eapply Qle_bool_trans; [|exact E].
      apply (sorted_head_max y T x S).
      destruct (Legacy.stripeCustomerID y =? k);
        [inversion F; now left|].
      right. now apply find_some in F. }
    rewrite Hx. destruct (Legacy.stripeCustomerID y =? k); simpl.
    + now inversion R.
    + destruct (LegacyService.rankOf k T); simpl in *; [|discriminate].
      now inversion R.
  - destruct (Legacy.stripeCustomerID y =? k) eqn:Ey.
    + inversion F; subst x. inversion R; subst i. now rewrite E.
    + inversion S; subst.
      destruct (LegacyService.rankOf k T) as [j|] eqn:Rj; simpl in R;
        [|discriminate].
      inversion R; subst i.
      rewrite (IH H1 j F eq_refl). simpl.
      destruct (Qle_bool (amt x) (amt a)); reflexivity.
Qed.

Lemma above_perm q l l' : Permutation l l' -> above q l = above q l'.
Proof.
  intros P. unfold above. apply Permutation_length.
  induction P; simpl.
  - constructor.
  - destruct (negb (Qle_bool (amt x) q)); [now constructor|assumption].
  - destruct (negb (Qle_bool (amt y) q)), (negb (Qle_bool (amt x) q));
      try reflexivity. apply perm_swap.
  - etransitivity; eassumption.
Qed.

Lemma find_payer_perm l l' :
  NoDup (map Legacy.stripeCustomerID l) -> Permutation l l' ->
  find isPayer l' = find isPayer l.
Proof.
  intros N P.
  assert (U : forall x y, In x l -> In y l -> isPayer x = true ->
                          isPayer y = true -> x = y).
  { intros x y Hx Hy Mx My. simpl in Mx, My.
    apply String.eqb_eq in Mx, My.
    eapply (NoDup_map_eq Legacy.stripeCustomerID l); eauto. congruence. }
  destruct (find isPayer l) as [x|] eqn:F.
  - destruct (find isPayer l') as [y|] eqn:F'.
    + apply find_some in F, F'. destruct F as [Hx Mx], F' as [Hy My].
      f_equal. apply U; auto.
      eapply Permutation_in; [apply Permutation_sym, P|exact Hy].
    + apply find_some in F. destruct F as [Hx Mx].
      pose proof (find_none _ _ F' x (Permutation_in _ P Hx)) as H.
      simpl in *. congruence.
  - destruct (find isPayer l') as [y|] eqn:F'; [|reflexivity].
    apply find_some in F'. destruct F' as [Hy My].
    pose proof (find_none _ _ F y
                  (Permutation_in _ (Permutation_sym P) Hy)) as H.
    simpl in *. congruence.
Qed.

(** The place of the payer in the ranking is [place]. *)
Lemma rankOf_sort l :
  NoDup (map Legacy.stripeCustomerID l) ->
  LegacyService.rankOf k (sort l) = place k l.
Proof.
  induction l as [|a l IH]; intros N; simpl; [reflexivity|].
  inversion N as [|? ? Ha Nl]; subst. specialize (IH Nl).
  pose proof (sortDesc_sorted Legacy.amount Qle_bool
                Qle_bool_total Qle_bool_trans l) as S.
  pose proof (sortDesc_perm Legacy.amount Qle_bool l) as P.
  pose proof (find_payer_perm l (sort l) Nl P) as Fp.
  destruct (Legacy.stripeCustomerID a =? k) eqn:Ea.
  - assert (F : find isPayer l = None).
    { destruct (find isPayer l) as [x|] eqn:F; [|reflexivity].
      apply find_some in F. destruct F as [Hx Mx]. simpl in Mx.
      apply String.eqb_eq in Ea, Mx. exfalso. apply Ha.
      rewrite Ea, <- Mx. now apply in_map. }
    rewrite rank_insert_self; auto; [|now rewrite Fp].
    f_equal. symmetry. now apply above_perm.
  - destruct (find isPayer l) as [x|] eqn:F.
    + destruct (place k l) as [i|] eqn:Pl.
      * simpl. now apply rank_insert_other; auto; rewrite ?Fp.
      * exfalso. apply rankOf_matches in IH. rewrite Fp in IH. discriminate.
    + apply rankOf_matches. clear F. rename Fp into F.
      remember (sort l) as T0 eqn:HT. clear -F Ea.
      induction T0 as [|y T IHT];
        cbn [insertDesc find LegacyService.matches] in *.
      * now rewrite Ea.
      * destruct (Legacy.stripeCustomerID y =? k) eqn:Ey; [discriminate|].
        destruct (Qle_bool (amt y) (amt a));
          cbn [find LegacyService.matches]; rewrite ?Ea, ?Ey; auto.
Qed.

Lemma above_antitone q q' l :
  Qle_bool q q' = true -> (above q' l <= above q l)%nat.
Proof.
  intros H. unfold above. induction l as [|y l IH]; simpl; [lia|].
  destruct (Qle_bool (amt y) q') eqn:E'; simpl.
  - destruct (negb (Qle_bool (amt y) q)); simpl; lia.
  - assert (E : Qle_bool (amt y) q = false).
    { destruct (Qle_bool (amt y) q) eqn:E; [|reflexivity].
      rewrite (Qle_bool_trans _ _ _ E H) in E'. discriminate. }
    rewrite E. simpl. lia.
Qed.

(** A larger total for the payer gives a place that is not further down. *)
Lemma place_save coll x x' i :
  find isPayer coll = Some x ->
  isPayer x' = true ->
  Qle_bool (amt x) (amt x') = true ->
  place k coll = Some i ->
  exists i', place k (LegacyService.save (Some k) x' coll) = Some i'
             /\ (i' <= i)%nat.
Proof.
  intros F M Le. revert i.
  induction coll as [|a l IH]; intros i Pl; simpl in *; [discriminate|].
  destruct (Legacy.stripeCustomerID a =? k) eqn:Ea; simpl.
  - inversion F; subst a. simpl in M. rewrite M.
    inversion Pl; subst i. eexists. split; [reflexivity|].
    now apply above_antitone.
  - rewrite Ea. rewrite F in Pl.
    destruct (place k l) as [j|] eqn:Pj; simpl in Pl; [|discriminate].
    destruct (IH F j eq_refl) as [j' [Pj' Hj]].
    assert (Fs : find isPayer (LegacyService.save (Some k) x' l) = Some x').
    { apply (legacy_find_save (Some k) x' l x F). exact M. }
    simpl in Fs. rewrite Fs, Pj'. simpl. eexists. split; [reflexivity|].
    inversion Pl; subst i.
    destruct (Qle_bool (amt x') (amt a)) eqn:E'.
    + rewrite (Qle_bool_trans _ _ _ Le E'). lia.
    + destruct (Qle_bool (amt x) (amt a)); lia.
Qed.

Lemma save_payers x' coll :
  isPayer x' = true ->
  map Legacy.stripeCustomerID (LegacyService.save (Some k) x' coll)
  = map Legacy.stripeCustomerID coll.
Proof.
  intros M. simpl in M. apply String.eqb_eq in M.
  induction coll as [|a l IH]; simpl; [reflexivity|].
  destruct (Legacy.stripeCustomerID a =? k) eqn:Ea; simpl.
  - apply String.eqb_eq in Ea. congruence.
  - now rewrite IH.
Qed.

End LegacyRank.

(** X14. In amount mode a payment never moves its payer down: whatever happens
    to the storage calls of the earlier [addEntry], a payer who is on the
    leaderboard and pays a non-negative amount is afterwards still on it, at
    the same place or nearer to the top. *)
Theorem legacy_payment_never_lowers_rank (entry : LegacyService.EntryData)
    (coll : list Legacy.Entry) (k : string) (r : nat) (plan : list bool) :
  NoDup (map Legacy.stripeCustomerID coll) ->
  LegacyService.e_stripeCustomerID entry = Some k ->
  (0 <= LegacyService.e_amount entry)%Q ->
  LegacyService.rankOf k (Legacy.getLeaderboard coll false) = Some r ->
  exists r',
    LegacyService.rankOf k
      (Legacy.getLeaderboard (fst (LegacyService.addEntry entry coll plan))
                             false) = Some r'
    /\ (r' <= r)%nat.
Proof.
  intros N K Ha R. unfold Legacy.getLeaderboard in *. simpl in *.
  rewrite (rankOf_sort k coll N) in R.
  assert (F : exists x, find (LegacyService.matches (Some k)) coll = Some x).
  { destruct (find (LegacyService.matches (Some k)) coll) as [x|] eqn:F;
      [eauto|].
    rewrite <- (rankOf_sort k coll N) in R.
    pose proof (proj2 (rankOf_matches k _)
                  (eq_trans (find_payer_perm k coll _ N
                               (sortDesc_perm Legacy.amount Qle_bool coll)) F))
      as H.
    congruence. }
  destruct F as [x F].
  assert (Same : LegacyService.rankOf k (sortDesc Legacy.amount Qle_bool coll)
                 = Some r) by (now rewrite (rankOf_sort k coll N)).
  unfold LegacyService.addEntry. rewrite K, F.
  destruct (hd false plan); simpl fst; [exists r; split; [exact Same|lia]|].
  destruct (hd false (tl plan)); simpl fst; [exists r; split; [exact Same|lia]|].
  assert (Hk : Legacy.stripeCustomerID x = k).
  { apply find_some in F. destruct F as [_ M]. simpl in M.
    now apply String.eqb_eq in M. }
  assert (M : LegacyService.matches (Some k) (LegacyService.topUp x entry)
              = true) by (simpl; rewrite Hk; apply String.eqb_refl).
  assert (Le : Qle_bool (Legacy.amount x)
                 (Legacy.amount (LegacyService.topUp x entry)) = true).
  { apply Qle_bool_iff. simpl.
    rewrite <- (Qplus_0_r (Legacy.amount x)) at 1.
    apply Qplus_le_compat; [apply Qle_refl|exact Ha]. }
  destruct (place_save k coll x _ r F M Le R) as [r' [P' Hr]].
  exists r'. split; [|exact Hr].
  rewrite rankOf_sort; [exact P'|].
  now rewrite save_payers.
Qed.

(** * Overlapping deliveries of one event *)

Section OverlapFacts.

Variable secret : option string.
Variable constructEvent :
  string -> option string -> option string -> string + StripeEvent.
Variable parseFloat : string -> option Q.

#[local] Abbreviation step := (Overlap.step parseFloat).
#[local] Abbreviation run := (Overlap.run parseFloat).

Lemma bind_inr {A B} (m : M A) (k : A -> M B) w a w' :
  m w = (inr a, w') -> bind m k w = k a w'.
Proof. unfold bind. now intros ->. Qed.

(** Run without interruption, a handler in flight is the webhook. *)
Lemma alone_is_webhook req event w :
  constructEvent (req_body req) (stripe_signature req) secret = inr event ->
  exists r,
    Gateway.webhook secret constructEvent parseFloat req w
    = (inr r, snd (Overlap.alone parseFloat event w))
    /\ fst (Overlap.alone parseFloat event w) = inr (Overlap.Answered r).
Proof.
  intros C. unfold Gateway.webhook. rewrite C.
  unfold Overlap.alone, Overlap.step, dedupCheck, handleEvent,
    LeaderboardService.addEntry, LeaderboardService.addEntry_try.
  unfold bind, try_catch, ret.
  destruct (ProcessedEventModel.findOne (ev_id event) w)
    as [[e|[x|]] w1]; try (eexists; split; reflexivity).
  destruct (ev_type event =? "checkout.session.completed").
  - destruct (EntryModel.findOne _ w1) as [[e|ex] w2].
    + pose proof (markProcessed_recordStep event w2) as [T _].
      destruct (markProcessed event w2) as [[e'|[]] w3];
        simpl in T; [discriminate|].
      eexists; split; reflexivity.
    + destruct (LeaderboardService.applyEntry _ ex w2) as [[e|[]] w3];
        (pose proof (markProcessed_recordStep event w3) as [T _];
         destruct (markProcessed event w3) as [[e'|[]] w4];
         simpl in T; [discriminate|];
         eexists; split; reflexivity).
  - pose proof (markProcessed_recordStep event w1) as [T _].
    destruct (markProcessed event w1) as [[e'|[]] w2];
      simpl in T; [discriminate|].
    eexists; split; reflexivity.
Qed.

(** ** Deliveries handled one after the other are runs of the gateway *)

Lemma reachable_empty : reachable secret constructEvent parseFloat emptyStore.
Proof. exists []. constructor. Qed.

Lemma running_step_head s pool h w :
  store w = s ->
  running secret constructEvent parseFloat s (h :: pool) ->
  exists h',
    fst (step h w) = inr h'
    /\ running secret constructEvent parseFloat
               (store (snd (step h w))) (h' :: pool).
Proof.
  intros E R. destruct (step_total parseFloat h w) as [h' [F _]].
  exists h'. split; [exact F|].
  destruct (step h w) as [r w'] eqn:S. simpl in *. subst r.
  eapply served_head; eauto.
Qed.

Lemma reachable_deliver d s :
  reachable secret constructEvent parseFloat s ->
  reachable secret constructEvent parseFloat
            (snd (Gateway.deliver secret constructEvent parseFloat d s)).
Proof.
  intros [pool R]. unfold Gateway.deliver.
  destruct (constructEvent (req_body (d_request d))
                           (stripe_signature (d_request d)) secret)
    as [msg|event] eqn:C.
  - unfold Gateway.webhook. rewrite C. simpl. now exists pool.
  - destruct (alone_is_webhook (d_request d) event
                (world s (d_faults d) (d_time d)) C) as [r [Hw _]].
    rewrite Hw. simpl.
    pose proof (running_callback secret constructEvent parseFloat
                  s pool (d_request d) event R C) as R0.
    unfold Overlap.alone, bind.
    destruct (running_step_head s pool (Overlap.Received event)
                (world s (d_faults d) (d_time d)) eq_refl R0)
      as [h1 [F1 R1]].
    destruct (step (Overlap.Received event) _) as [r1 w1].
    simpl in F1, R1. subst r1.
    destruct (running_step_head _ pool h1 w1 eq_refl R1) as [h2 [F2 R2]].
    destruct (step h1 w1) as [r2 w2]. simpl in F2, R2. subst r2.
    destruct (running_step_head _ pool h2 w2 eq_refl R2) as [h3 [F3 R3]].
    destruct (step h2 w2) as [r3 w3]. simpl in F3, R3. subst r3.
    destruct (running_step_head _ pool h3 w3 eq_refl R3) as [h4 [F4 R4]].
    exists (h4 :: pool). exact R4.
Qed.

(** Two handlers in flight, served in the order of a schedule, are a run of
    the gateway too. *)
Lemma run_running schedule :
  forall a b w pool,
    running secret constructEvent parseFloat (store w) (a :: b :: pool) ->
    exists a' b',
      fst (run schedule a b w) = inr (a', b')
      /\ running secret constructEvent parseFloat
                 (store (snd (run schedule a b w))) (a' :: b' :: pool).
Proof.
  induction schedule as [|[|] rest IH]; intros a b w pool R.
  - exists a, b. split; [reflexivity|exact R].
  - cbn [Overlap.run]. unfold bind.
    destruct (running_step_head _ (b :: pool) a w eq_refl R) as [a1 [F R1]].
    destruct (step a w) as [r w1]. simpl in F, R1. subst r.
    exact (IH a1 b w1 pool R1).
  - cbn [Overlap.run]. unfold bind.
    destruct (step_total parseFloat b w) as [b1 [F _]].
    destruct (step b w) as [r w1] eqn:S. simpl in F. subst r.
    apply IH. destruct w as [s0 fs t].
    exact (running_served secret constructEvent parseFloat
             s0 [a] b pool fs t b1 w1 R S).
Qed.

Lemma step_received event s t :
  ev_type event = "checkout.session.completed" ->
  ~ In (ev_id event) (processedEvents s) ->
  step (Overlap.Received event) (world s [] t)
  = (inr (Overlap.Checked event), world s [] t).
Proof.
  intros T N. apply find_event_notin in N.
  unfold Overlap.step, ProcessedEventModel.findOne, roundTrip. run_m.
  rewrite N, T. reflexivity.
Qed.

Lemma step_checked event s t :
  step (Overlap.Checked event) (world s [] t)
  = (inr (Overlap.Loaded event
            (find (EntryModel.matches
                     (e_stripeCustomerID
                        (entryDataOf parseFloat (data_object event))))
                  (entries s))),
     world s [] t).
Proof. reflexivity. Qed.

Lemma step_loaded event s t ex :
  step (Overlap.Loaded event (Some ex)) (world s [] t)
  = (inr (Overlap.Mutated event),
     world (EntryModel.updateOne (_id ex)
              (LeaderboardService.topUp ex
                 (entryDataOf parseFloat (data_object event))) s) [] t).
Proof. reflexivity. Qed.

Lemma step_mutated_fresh event s t :
  ev_id event <> "" ->
  ~ In (ev_id event) (processedEvents s) ->
  step (Overlap.Mutated event) (world s [] t)
  = (inr (Overlap.Answered {| status := 200; body := Text "Event received" |}),
     world (ProcessedEventModel.insertOne (ev_id event) s) [] t).
Proof.
  intros Hne N. unfold Overlap.step.
  erewrite bind_inr; [reflexivity|].
  now apply markProcessed_inserts.
Qed.

Lemma step_mutated_recorded event s t :
  In (ev_id event) (processedEvents s) ->
  step (Overlap.Mutated event) (world s [] t)
  = (inr (Overlap.Answered {| status := 200; body := Text "Event received" |}),
     world s [] t).
Proof.
  intros I. unfold Overlap.step, markProcessed, ProcessedEventModel.create,
    roundTrip.
  run_m. destruct (ev_id event =? ""); [reflexivity|]. simpl.
  destruct (existsb _ _) eqn:X; [reflexivity|].
  apply existsb_event_false in X. contradiction.
Qed.

(** X6. The dedup check does not stop two overlapping deliveries of one event.
    When the lookups of both handlers are served before either has written
    its record, and the first handler then finishes before the second goes
    on, the payer's entry is topped up twice: the total grows by twice the
    amount, both callbacks are answered 200, and one record is written (the
    second insert is refused by the unique index and the refusal is
    swallowed). *)
Theorem overlapping_deliveries_credit_twice (event : StripeEvent)
    (s : Store) (k : string) (ex : Entry) (t : Z) :
  ev_type event = "checkout.session.completed" ->
  ev_id event <> "" ->
  ~ In (ev_id event) (processedEvents s) ->
  md_stripeCustomerID (metadata (data_object event)) = Some k ->
  entryOf k s = Some ex ->
  let a := (inject_Z (amount_total (data_object event)) / 100)%Q in
  let received := {| status := 200; body := Text "Event received" |} in
  exists s',
    run [Interleaving.A; Interleaving.B;
         Interleaving.A; Interleaving.A; Interleaving.A;
         Interleaving.B; Interleaving.B; Interleaving.B]
        (Overlap.Received event) (Overlap.Received event) (world s [] t)
    = (inr (Overlap.Answered received, Overlap.Answered received),
       world s' [] t)
    /\ (totalOf k s' == amount ex + a + a)%Q
    /\ processedEvents s' = processedEvents s ++ [ev_id event]
    /\ length (entries s') = length (entries s).
Proof.
  intros T Hne N K F a received.
  set (entry := entryDataOf parseFloat (data_object event)).
  assert (Fe : find (EntryModel.matches (e_stripeCustomerID entry)) (entries s)
               = Some ex) by (simpl; rewrite K; exact F).
  set (m1 := LeaderboardService.topUp ex entry).
  set (s1 := EntryModel.updateOne (_id ex) m1 s).
  set (ex1 := EntryModel.applyModified m1 ex).
  set (s2 := ProcessedEventModel.insertOne (ev_id event) s1).
  assert (F2 : find (EntryModel.matches (e_stripeCustomerID entry))
                    (entries s2) = Some ex1).
  { simpl e_stripeCustomerID. rewrite K.
    exact (entryOf_updateOne k s ex m1 F). }
  set (m2 := LeaderboardService.topUp ex1 entry).
  set (s3 := EntryModel.updateOne (_id ex1) m2 s2).
  exists s3.
  assert (I3 : In (ev_id event) (processedEvents s3))
    by (simpl; apply in_or_app; right; now left).
  split.
  - cbn [Overlap.run].
    erewrite bind_inr by (apply step_received; assumption).
    erewrite bind_inr by (apply step_received; assumption).
    erewrite bind_inr by apply step_checked.
    fold entry. rewrite Fe.
    erewrite bind_inr by apply step_loaded.
    fold entry m1 s1.
    erewrite bind_inr by (apply step_mutated_fresh; assumption).
    fold s2.
    erewrite bind_inr by apply step_checked.
    fold entry. rewrite F2.
    erewrite bind_inr by apply step_loaded.
    fold entry m2 s3.
    erewrite bind_inr by (apply step_mutated_recorded; exact I3).
    reflexivity.
  - split.
    + assert (F3 : entryOf k s3 = Some (EntryModel.applyModified m2 ex1)).
      { apply entryOf_updateOne.
        exact (entryOf_updateOne k s ex m1 F). }
      unfold totalOf. rewrite F3. simpl. reflexivity.
    + split; [reflexivity|]. simpl. now rewrite !length_map.
Qed.

End OverlapFacts.

(** * The properties at the sample events *)

Section AtTheSamples.

#[local] Abbreviation deliver' :=
  (deliver Sample.secret Sample.constructEvent Sample.parseFloat).

(** ** C1 *)

(** The ledger mutation of [E1] fails (the [findOne] of [addEntry] throws),
    and yet the event is put on record and the answer is 200. *)
Lemma failed_mutation_counterexample :
  fst (LeaderboardService.addEntry_try
         (entryDataOf Sample.parseFloat (data_object Sample.E1))
         (world emptyStore [true] 100)) = inl StorageError
  /\ deliver' (Sample.delivery "E1" [false; true] 100) emptyStore
     = (Some {| status := 200; body := Text "Event received" |},
        {| entries := []; processedEvents := ["evt_1"]; nextId := 0 |}).
Proof. split; reflexivity. Qed.

Lemma failed_mutation_is_acknowledged_witness :
  Sample.constructEvent "E1" (Some "ok") Sample.secret = inr Sample.E1
  /\ fst (deliver' (Sample.delivery "E1" [false; true] 100) emptyStore)
     = Some {| status := 200; body := Text "Event received" |}
  /\ entries (snd (deliver' (Sample.delivery "E1" [false; true] 100)
                            emptyStore)) = [].
Proof.
  split; [reflexivity|].
  assert (N : ~ In (ev_id Sample.E1) (processedEvents emptyStore))
    by (simpl; tauto).
  pose proof (failed_mutation_is_acknowledged
                Sample.secret Sample.constructEvent Sample.parseFloat
                (Sample.delivery "E1" [false; true] 100) emptyStore
                Sample.E1 [true] StorageError
                eq_refl eq_refl N eq_refl eq_refl) as [R [E _]].
  split; [exact R|exact E].
Defined.

(** ** C2 *)



(** ** C3 *)

(** Two payments of 5 and 7 by [cus_1], whose total is 10, with both
    [findOne]s served before either write: the total ends at 17, not 22.
    The same two payments for a payer without an entry: both calls find
    nothing, one insert is refused by the unique index, and the total ends
    at 5, one amount alone. And two payments of 7 and 5 by [cus_9], who has
    no entry, handled one after the other with no storage fault, the one of
    7 without a name: it is dropped when it comes first, and the total ends
    at 5; when it comes second it tops up the entry the other created, and
    the total ends at 12. *)
Lemma two_payments_counterexample :
  (totalOf "cus_1" Sample.afterE1 == 10)%Q
  /\ (e_amount (Sample.pays 500) == 5)%Q
  /\ (e_amount (Sample.pays 700) == 7)%Q
  /\ (totalOf "cus_1"
        (Interleaving.after
           [Interleaving.A; Interleaving.B; Interleaving.A; Interleaving.B]
           (Sample.pays 500) (Sample.pays 700) Sample.afterE1 200) == 17)%Q
  /\ ~ (totalOf "cus_1"
          (Interleaving.after
             [Interleaving.A; Interleaving.B; Interleaving.A; Interleaving.B]
             (Sample.pays 500) (Sample.pays 700) Sample.afterE1 200)
        == 10 + (5 + 7))%Q
  /\ (totalOf "cus_1"
        (Interleaving.after
           [Interleaving.A; Interleaving.B; Interleaving.A; Interleaving.B]
           (Sample.pays 500) (Sample.pays 700) emptyStore 200) == 5)%Q
  /\ ~ (totalOf "cus_1"
          (Interleaving.after
             [Interleaving.A; Interleaving.B; Interleaving.A; Interleaving.B]
             (Sample.pays 500) (Sample.pays 700) emptyStore 200)
        == 5 + 7)%Q
  /\ (totalOf "cus_9"
        (Interleaving.after
           [Interleaving.A; Interleaving.A; Interleaving.B; Interleaving.B]
           (entryDataOf Sample.parseFloat (data_object MoreSamples.nameless))
           (entryDataOf Sample.parseFloat (data_object MoreSamples.E7))
           emptyStore 200) == 5)%Q
  /\ (totalOf "cus_9"
        (Interleaving.after
           [Interleaving.B; Interleaving.B; Interleaving.A; Interleaving.A]
           (entryDataOf Sample.parseFloat (data_object MoreSamples.nameless))
           (entryDataOf Sample.parseFloat (data_object MoreSamples.E7))
           emptyStore 200) == 12)%Q.
Proof.
  repeat split; try reflexivity; intros H; vm_compute in H; discriminate.
Qed.

Lemma sequential_payments_add_up_witness :
  e_stripeCustomerID (Sample.pays 500) = Some "cus_1"
  /\ e_stripeCustomerID (Sample.pays 700) = Some "cus_1"
  /\ option_map amount
       (entryOf "cus_1"
          (Interleaving.after
             [Interleaving.A; Interleaving.A; Interleaving.B; Interleaving.B]
             (Sample.pays 500) (Sample.pays 700) Sample.afterE1 200))
     = Some (amount Sample.ada + e_amount (Sample.pays 500)
             + e_amount (Sample.pays 700))%Q.
Proof.
  split; [reflexivity|]. split; [reflexivity|].
  exact (proj1 (sequential_payments_add_up
                  (Sample.pays 500) (Sample.pays 700) Sample.afterE1
                  "cus_1" 200 eq_refl eq_refl)).
Defined.

(** ** C4 *)

(** [E6] and [E2] pay 7 and 5 for [cus_1], whose total is 10. The handler
    of [E2] loads the entry; the handler of [E6] then runs to its end and
    leaves the total at 17; the handler of [E2] then writes what it read
    plus 5: the total goes down from 17 to 15. Both callbacks are answered
    200, and both stores are stores the gateway can reach. *)
Lemma total_decrease_counterexample :
  (0 <= amount_total (data_object Sample.E2))%Z
  /\ (0 <= amount_total (data_object MoreSamples.E6))%Z
  /\ (totalOf "cus_1" Sample.afterE1 == 10)%Q
  /\ (totalOf "cus_1"
        (store (snd (Overlap.run Sample.parseFloat
                       [Interleaving.B; Interleaving.B;
                        Interleaving.A; Interleaving.A;
                        Interleaving.A; Interleaving.A]
                       (Overlap.Received MoreSamples.E6)
                       (Overlap.Received Sample.E2)
                       (world Sample.afterE1 [] 200)))) == 17)%Q
  /\ (totalOf "cus_1"
        (store (snd (Overlap.run Sample.parseFloat
                       [Interleaving.B; Interleaving.B;
                        Interleaving.A; Interleaving.A;
                        Interleaving.A; Interleaving.A;
                        Interleaving.B; Interleaving.B]
                       (Overlap.Received MoreSamples.E6)
                       (Overlap.Received Sample.E2)
                       (world Sample.afterE1 [] 200)))) == 15)%Q
  /\ fst (Overlap.run Sample.parseFloat
            [Interleaving.B; Interleaving.B;
             Interleaving.A; Interleaving.A;
             Interleaving.A; Interleaving.A;
             Interleaving.B; Interleaving.B]
            (Overlap.Received MoreSamples.E6)
            (Overlap.Received Sample.E2)
            (world Sample.afterE1 [] 200))
     = inr (Overlap.Answered
              {| status := 200; body := Text "Event received" |},
            Overlap.Answered
              {| status := 200; body := Text "Event received" |})
  /\ reachable Sample.secret MoreSamples.constructEvent Sample.parseFloat
       (store (snd (Overlap.run Sample.parseFloat
                      [Interleaving.B; Interleaving.B;
                       Interleaving.A; Interleaving.A;
                       Interleaving.A; Interleaving.A]
                      (Overlap.Received MoreSamples.E6)
                      (Overlap.Received Sample.E2)
                      (world Sample.afterE1 [] 200))))
  /\ reachable Sample.secret MoreSamples.constructEvent Sample.parseFloat
       (store (snd (Overlap.run Sample.parseFloat
                      [Interleaving.B; Interleaving.B;
                       Interleaving.A; Interleaving.A;
                       Interleaving.A; Interleaving.A;
                       Interleaving.B; Interleaving.B]
                      (Overlap.Received MoreSamples.E6)
                      (Overlap.Received Sample.E2)
                      (world Sample.afterE1 [] 200)))).
Proof.
  assert (R : exists pool,
             running Sample.secret MoreSamples.constructEvent
                     Sample.parseFloat Sample.afterE1
                     (Overlap.Received MoreSamples.E6
                      :: Overlap.Received Sample.E2 :: pool)).
  { assert (R0 : reachable Sample.secret MoreSamples.constructEvent
                           Sample.parseFloat Sample.afterE1).
    { change Sample.afterE1
        with (snd (deliver Sample.secret MoreSamples.constructEvent
                           Sample.parseFloat (Sample.delivery "E1" [] 100)
                           emptyStore)).
      apply reachable_deliver, reachable_empty. }
    destruct R0 as [pool R0]. exists pool.
    apply (running_callback _ _ _ _ _ (Sample.request "E6"));
      [|reflexivity].
    apply (running_callback _ _ _ _ _ (Sample.request "E2"));
      [exact R0|reflexivity]. }
  destruct R as [pool R].
  repeat split; try reflexivity; try (vm_compute; discriminate).
  - destruct (run_running Sample.secret MoreSamples.constructEvent
                Sample.parseFloat
                [Interleaving.B; Interleaving.B;
                 Interleaving.A; Interleaving.A;
                 Interleaving.A; Interleaving.A]
                _ _ (world Sample.afterE1 [] 200) pool R)
      as [a' [b' [_ Rn]]].
    eexists. exact Rn.
  - destruct (run_running Sample.secret MoreSamples.constructEvent
                Sample.parseFloat
                [Interleaving.B; Interleaving.B;
                 Interleaving.A; Interleaving.A;
                 Interleaving.A; Interleaving.A;
                 Interleaving.B; Interleaving.B]
                _ _ (world Sample.afterE1 [] 200) pool R)
      as [a' [b' [_ Rn]]].
    eexists. exact Rn.
Qed.

Lemma ledger_invariants_witness :
  reachable Sample.secret Sample.constructEvent Sample.parseFloat
            Sample.afterE1
  /\ NoDup (map stripeCustomerID (entries Sample.afterE1))
  /\ grows Sample.afterE1
           (snd (deliver' (Sample.delivery "E2" [] 200) Sample.afterE1))
  /\ running Sample.secret Sample.constructEvent Sample.parseFloat
             emptyStore [Overlap.Loaded Sample.E1 None]
  /\ exists req event,
       Sample.constructEvent (req_body req) (stripe_signature req)
                             Sample.secret = inr event
       /\ Overlap.Loaded Sample.E1 None = Overlap.Loaded event None
       /\ amount Sample.ada
          = (inject_Z (amount_total (data_object event)) / 100)%Q.
Proof.
  assert (R : reachable Sample.secret Sample.constructEvent Sample.parseFloat
                        Sample.afterE1)
    by (unfold Sample.afterE1; apply reachable_deliver, reachable_empty).
  split; [exact R|].
  assert (A : forall event,
             Sample.constructEvent
               (req_body (d_request (Sample.delivery "E2" [] 200)))
               (stripe_signature (d_request (Sample.delivery "E2" [] 200)))
               Sample.secret = inr event ->
             (0 <= amount_total (data_object event))%Z).
  { intros event H. vm_compute in H. inversion H. simpl. lia. }
  pose proof (ledger_invariants
                Sample.secret Sample.constructEvent Sample.parseFloat
                Sample.afterE1 R)
    as [U [_ G]].
  split; [exact U|].
  split; [exact (proj1 (G (Sample.delivery "E2" [] 200) A))|].
  assert (Rn : running Sample.secret Sample.constructEvent Sample.parseFloat
                       emptyStore [Overlap.Loaded Sample.E1 None]).
  { apply (running_served Sample.secret Sample.constructEvent
             Sample.parseFloat emptyStore [] (Overlap.Checked Sample.E1) []
             [] 100 (Overlap.Loaded Sample.E1 None) (world emptyStore [] 100));
      [|reflexivity].
    apply (running_served Sample.secret Sample.constructEvent
             Sample.parseFloat emptyStore [] (Overlap.Received Sample.E1) []
             [] 100 (Overlap.Checked Sample.E1) (world emptyStore [] 100));
      [|reflexivity].
    apply (running_callback Sample.secret Sample.constructEvent
             Sample.parseFloat emptyStore [] (Sample.request "E1") Sample.E1);
      [constructor|reflexivity]. }
  split; [exact Rn|].
  pose proof (ledger_invariants
                Sample.secret Sample.constructEvent Sample.parseFloat
                emptyStore
                (reachable_empty Sample.secret Sample.constructEvent
                                 Sample.parseFloat))
    as [_ [New _]].
  destruct (New [Overlap.Loaded Sample.E1 None] (Overlap.Loaded Sample.E1 None)
                [] 100%Z Sample.ada Rn (or_introl eq_refl)
                (or_introl eq_refl) (fun H => H))
    as [req [event [C [H [Am _]]]]].
  exists req, event. split; [exact C|]. split; [exact H|exact Am].
Defined.

(** ** C5 *)

(** The checkout [E4] comes from a payer without an entry and carries no
    name: it is answered 200 and put on record, and no entry is created.
    Nor is one created for [E1], which carries all the schema requires, when
    the [findOne] of [addEntry] fails. *)
Lemma new_payer_counterexample :
  ev_type MoreSamples.nameless = "checkout.session.completed"
  /\ md_stripeCustomerID (metadata (data_object MoreSamples.nameless))
     = Some "cus_9"
  /\ entryOf "cus_9" Sample.afterE1 = None
  /\ deliver Sample.secret MoreSamples.constructEvent Sample.parseFloat
       (Sample.delivery "E4" [] 500) Sample.afterE1
     = (Some {| status := 200; body := Text "Event received" |},
        {| entries := [Sample.ada];
           processedEvents := ["evt_1"; "evt_4"];
           nextId := 1 |})
  /\ entryOf "cus_1" emptyStore = None
  /\ deliver' (Sample.delivery "E1" [false; true] 100) emptyStore
     = (Some {| status := 200; body := Text "Event received" |},
        {| entries := []; processedEvents := ["evt_1"]; nextId := 0 |}).
Proof. repeat split; reflexivity. Qed.

Lemma new_payer_creates_one_entry_witness :
  entryOf "cus_1" emptyStore = None
  /\ exists created,
       entries (snd (deliver' (Sample.delivery "E1" [] 100) emptyStore))
       = [created]
       /\ amount created = (inject_Z 1000 / 100)%Q
       /\ position created
          = Some {| pos_type := "Point";
                    coordinates := Some [(-12 # 100)%Q; (515 # 10)%Q] |}.
Proof.
  split; [reflexivity|].
  assert (N : ~ In (ev_id Sample.E1) (processedEvents emptyStore))
    by (simpl; tauto).
  assert (K : "cus_1" <> "") by discriminate.
  assert (Co : truthy (md_lat (metadata (data_object Sample.E1)))
               && truthy (md_lng (metadata (data_object Sample.E1))) = true ->
               Sample.parseFloat
                 (or_empty (md_lat (metadata (data_object Sample.E1))))
               <> None
               /\ Sample.parseFloat
                    (or_empty (md_lng (metadata (data_object Sample.E1))))
                  <> None)
    by (intros _; split; discriminate).
  destruct (new_payer_creates_one_entry
              Sample.secret Sample.constructEvent Sample.parseFloat
              (Sample.delivery "E1" [] 100) emptyStore Sample.E1 "cus_1"
              eq_refl eq_refl N eq_refl eq_refl eq_refl K eq_refl eq_refl Co)
    as [created [E [_ [_ [A [_ [_ [_ [_ [Both _]]]]]]]]]].
  destruct (Both eq_refl) as [la [ln [Hla [Hln Hp]]]].
  vm_compute in Hla, Hln. inversion Hla. inversion Hln. subst la ln.
  exists created. split; [exact E|]. split; [exact A|exact Hp].
Defined.

(** ** C6 *)

(** Three payers with the same total come back in the order of the
    collection, B, A, C: the tie is not broken by the payer identity, in
    neither direction. *)
Lemma ranking_ties_counterexample :
  Legacy.getLeaderboard [Sample.B50; Sample.A50; Sample.C50] false
  = [Sample.B50; Sample.A50; Sample.C50]
  /\ tiesBrokenByPayer String.leb
       (Legacy.getLeaderboard [Sample.B50; Sample.A50; Sample.C50] false)
     = false
  /\ tiesBrokenByPayer (fun a b => String.leb b a)
       (Legacy.getLeaderboard [Sample.B50; Sample.A50; Sample.C50] false)
     = false.
Proof. repeat split; reflexivity. Qed.

(** ** C8 *)

(** [E2] tops up the entry [E1] created. It carries another name, another
    location label and another position, and the entry keeps the old ones. *)
Lemma top_up_counterexample :
  md_name (metadata (data_object Sample.E2)) = Some "Bob"
  /\ md_locationLabel (metadata (data_object Sample.E2)) = Some "Rome"
  /\ e_position (entryDataOf Sample.parseFloat (data_object Sample.E2))
     = Some {| p_type := "Point";
               p_coordinates := [Some (125 # 10)%Q; Some (419 # 10)%Q] |}
  /\ fst (deliver' (Sample.delivery "E2" [] 200) Sample.afterE1)
     = Some {| status := 200; body := Text "Event received" |}
  /\ option_map name
       (entryOf "cus_1"
          (snd (deliver' (Sample.delivery "E2" [] 200) Sample.afterE1)))
     = Some "Ada"
  /\ option_map locationLabel
       (entryOf "cus_1"
          (snd (deliver' (Sample.delivery "E2" [] 200) Sample.afterE1)))
     = Some "London"
  /\ option_map position
       (entryOf "cus_1"
          (snd (deliver' (Sample.delivery "E2" [] 200) Sample.afterE1)))
     = Some (Some {| pos_type := "Point";
                     coordinates := Some [(-12 # 100)%Q; (515 # 10)%Q] |}).
Proof. repeat split; reflexivity. Qed.

Lemma top_up_overwrites_message_only_witness :
  entryOf "cus_1" Sample.afterE1 = Some Sample.ada
  /\ ~ In (ev_id Sample.E2) (processedEvents Sample.afterE1)
  /\ exists ex',
       entryOf "cus_1"
         (snd (deliver' (Sample.delivery "E2" [] 200) Sample.afterE1))
       = Some ex'
       /\ amount ex' = (amount Sample.ada + inject_Z 500 / 100)%Q
       /\ name ex' = "Ada".
Proof.
  assert (N : ~ In (ev_id Sample.E2) (processedEvents Sample.afterE1))
    by (vm_compute; intros [H|[]]; discriminate).
  split; [reflexivity|]. split; [exact N|].
  destruct (top_up_overwrites_message_only
              Sample.secret Sample.constructEvent Sample.parseFloat
              (Sample.delivery "E2" [] 200) Sample.afterE1 Sample.E2
              "cus_1" Sample.ada
              eq_refl eq_refl N eq_refl eq_refl eq_refl)
    as [ex' [F [A [_ [Nm _]]]]].
  exists ex'. split; [exact F|]. split; [exact A|exact Nm].
Defined.

(** ** C10 *)

(** [E2] is submitted with [lat] 41.9 and [lng] 12.5; the read route
    afterwards returns the payer's row with [lat] 51.5 and [lng] -0.12, the
    coordinates of the event that created the entry. *)
Lemma coordinates_top_up_counterexample :
  md_lat (metadata (data_object Sample.E2)) = Some "41.9"
  /\ md_lng (metadata (data_object Sample.E2)) = Some "12.5"
  /\ Sample.parseFloat "41.9" = Some (419 # 10)%Q
  /\ Sample.parseFloat "12.5" = Some (125 # 10)%Q
  /\ fst (deliver' (Sample.delivery "E2" [] 200) Sample.afterE1)
     = Some {| status := 200; body := Text "Event received" |}
  /\ match readLeaderboard
             (snd (deliver' (Sample.delivery "E2" [] 200) Sample.afterE1))
             [] 300 with
     | Some {| status := 200; body := JsonRows rows |} =>
         map (fun r => (stripeCustomerID (LeaderboardService.row_entry r),
                        LeaderboardService.lat r,
                        LeaderboardService.lng r)) rows
     | _ => []
     end
     = [("cus_1", Some (515 # 10)%Q, Some (-12 # 100)%Q)].
Proof. repeat split; reflexivity. Qed.

Lemma coordinates_round_trip_on_creation_witness :
  creatable (entryDataOf Sample.parseFloat (data_object Sample.E1)) = true
  /\ Sample.parseFloat "51.5" = Some (515 # 10)%Q
  /\ Sample.parseFloat "-0.12" = Some (-12 # 100)%Q
  /\ exists la ln,
       Sample.parseFloat "51.5" = Some la
       /\ Sample.parseFloat "-0.12" = Some ln
       /\ LeaderboardService.lat
            (LeaderboardService.toRow
               (documentOf
                  (entryDataOf Sample.parseFloat (data_object Sample.E1))
                  0 100)) = Some la
       /\ LeaderboardService.lng
            (LeaderboardService.toRow
               (documentOf
                  (entryDataOf Sample.parseFloat (data_object Sample.E1))
                  0 100)) = Some ln.
Proof.
  split; [reflexivity|]. split; [reflexivity|]. split; [reflexivity|].
  assert (N : ~ In (ev_id Sample.E1) (processedEvents emptyStore))
    by (simpl; tauto).
  destruct (coordinates_round_trip_on_creation
              Sample.secret Sample.constructEvent Sample.parseFloat
              (Sample.delivery "E1" [] 100) emptyStore Sample.E1 "cus_1" 300
              eq_refl eq_refl N eq_refl eq_refl eq_refl eq_refl)
    as [_ [_ [Both _]]].
  destruct (Both eq_refl) as [la [ln [Hla [Hln [_ [_ [Rla Rln]]]]]]].
  exists la, ln. repeat split; assumption.
Defined.

End AtTheSamples.

(** * The further properties at the sample events *)

Section FurtherSamples.

#[local] Abbreviation deliver1 :=
  (deliver Sample.secret Sample.constructEvent Sample.parseFloat).
#[local] Abbreviation deliver2 :=
  (deliver Sample.secret MoreSamples.constructEvent Sample.parseFloat).

Lemma totals_never_decrease_witness :
  reachable Sample.secret Sample.constructEvent Sample.parseFloat
            Sample.afterE1
  /\ grows Sample.afterE1
       (deliverAll Sample.secret Sample.constructEvent Sample.parseFloat
          [Sample.delivery "E2" [] 200; Sample.delivery "E1" [true] 300;
           Sample.delivery "E2" [] 400]
          Sample.afterE1).
Proof.
  assert (R : reachable Sample.secret Sample.constructEvent Sample.parseFloat
                        Sample.afterE1)
    by (unfold Sample.afterE1; apply reachable_deliver, reachable_empty).
  split; [exact R|].
  apply (totals_never_decrease Sample.secret Sample.constructEvent
           Sample.parseFloat _ Sample.afterE1 R).
  repeat constructor; intros event H; vm_compute in H; inversion H;
    simpl; lia.
Defined.

Lemma unhandled_event_is_only_recorded_witness :
  ev_type MoreSamples.refunded <> "checkout.session.completed"
  /\ fst (deliver2 (Sample.delivery "E3" [] 500) Sample.afterE1)
     = Some {| status := 200; body := Text "Event received" |}
  /\ entries (snd (deliver2 (Sample.delivery "E3" [] 500) Sample.afterE1))
     = entries Sample.afterE1
  /\ deliver2 (Sample.delivery "E3" [true] 500) Sample.afterE1
     = (Some {| status := 500; body := Text "Internal Server Error" |},
        Sample.afterE1).
Proof.
  assert (T : ev_type MoreSamples.refunded <> "checkout.session.completed")
    by (simpl; discriminate).
  assert (N : ~ In (ev_id MoreSamples.refunded)
                   (processedEvents Sample.afterE1))
    by (vm_compute; intros [H|[]]; discriminate).
  split; [exact T|].
  destruct (unhandled_event_is_only_recorded
              Sample.secret MoreSamples.constructEvent Sample.parseFloat
              (Sample.delivery "E3" [] 500) Sample.afterE1
              MoreSamples.refunded eq_refl T N) as [E [_ H]].
  destruct (H eq_refl) as [R _].
  split; [exact R|]. split; [exact E|].
  destruct (unhandled_event_is_only_recorded
              Sample.secret MoreSamples.constructEvent Sample.parseFloat
              (Sample.delivery "E3" [true] 500) Sample.afterE1
              MoreSamples.refunded eq_refl T N) as [_ [F _]].
  exact (F eq_refl).
Defined.

Lemma uncreatable_payment_is_dropped_witness :
  creatable (entryDataOf Sample.parseFloat (data_object MoreSamples.nameless))
  = false
  /\ deliver2 (Sample.delivery "E4" [] 500) Sample.afterE1
     = (Some {| status := 200; body := Text "Event received" |},
        ProcessedEventModel.insertOne "evt_4" Sample.afterE1).
Proof.
  split; [reflexivity|].
  assert (N : ~ In (ev_id MoreSamples.nameless)
                   (processedEvents Sample.afterE1))
    by (vm_compute; intros [H|[]]; discriminate).
  assert (Hne : ev_id MoreSamples.nameless <> "") by (simpl; discriminate).
  exact (proj1 (uncreatable_payment_is_dropped
                  Sample.secret MoreSamples.constructEvent Sample.parseFloat
                  (Sample.delivery "E4" [] 500) Sample.afterE1
                  MoreSamples.nameless eq_refl eq_refl N Hne eq_refl
                  eq_refl eq_refl)).
Defined.

Lemma failed_record_credits_twice_witness :
  entryOf "cus_1" Sample.afterE1 = Some Sample.ada
  /\ (totalOf "cus_1"
        (snd (deliver1 (Sample.delivery "E2" [] 300)
                (snd (deliver1
                        (Sample.delivery "E2" [false; false; false; true] 200)
                        Sample.afterE1))))
      == amount Sample.ada + inject_Z 500 / 100 + inject_Z 500 / 100)%Q.
Proof.
  split; [reflexivity|].
  assert (N : ~ In (ev_id Sample.E2) (processedEvents Sample.afterE1))
    by (vm_compute; intros [H|[]]; discriminate).
  destruct (failed_record_credits_twice
              Sample.secret Sample.constructEvent Sample.parseFloat
              (Sample.request "E2") Sample.E2 200 300 Sample.afterE1
              "cus_1" Sample.ada eq_refl eq_refl N eq_refl eq_refl)
    as [_ [_ [_ [_ H]]]].
  exact H.
Defined.

Lemma stored_entries_are_well_formed_witness :
  reachable Sample.secret Sample.constructEvent Sample.parseFloat
            Sample.afterE1
  /\ Forall (fun d =>
               wellFormed d
               /\ (LeaderboardService.lat (LeaderboardService.toRow d) = None
                   <-> LeaderboardService.lng (LeaderboardService.toRow d)
                       = None))
            (entries Sample.afterE1).
Proof.
  assert (R : reachable Sample.secret Sample.constructEvent Sample.parseFloat
                        Sample.afterE1)
    by (unfold Sample.afterE1; apply reachable_deliver, reachable_empty).
  split; [exact R|].
  exact (stored_entries_are_well_formed
           Sample.secret Sample.constructEvent Sample.parseFloat
           Sample.afterE1 R).
Defined.

Lemma delivery_without_creation_keeps_the_page_witness :
  length (entries (snd (deliver1 (Sample.delivery "E2" [] 200)
                                 Sample.afterE1)))
  = length (entries Sample.afterE1)
  /\ Frontend.globeData
       (pageOf (snd (deliver1 (Sample.delivery "E2" [] 200) Sample.afterE1)))
     = Frontend.globeData (pageOf Sample.afterE1)
  /\ Frontend.banner
       (pageOf (snd (deliver1 (Sample.delivery "E2" [] 200) Sample.afterE1)))
     = Frontend.banner (pageOf Sample.afterE1).
Proof.
  assert (L : length (entries (snd (deliver1 (Sample.delivery "E2" [] 200)
                                             Sample.afterE1)))
              = length (entries Sample.afterE1)) by reflexivity.
  split; [exact L|].
  destruct (delivery_without_creation_keeps_the_page
              Sample.secret Sample.constructEvent Sample.parseFloat
              (Sample.delivery "E2" [] 200) Sample.afterE1 L)
    as [_ [G [B _]]].
  split; [exact G|exact B].
Defined.

Lemma newest_creator_is_current_owner_witness :
  creatable (entryDataOf Sample.parseFloat (data_object MoreSamples.E5)) = true
  /\ map createdAt (entries Sample.afterE1) = [100%Z]
  /\ map stripeCustomerID
       (ranked (snd (deliver2 (Sample.delivery "E5" [] 200) Sample.afterE1)))
     = ["cus_2"; "cus_1"]
  /\ Frontend.banner
       (pageOf (snd (deliver2 (Sample.delivery "E5" [] 200) Sample.afterE1)))
     = Some ("Paris", "Grace").
Proof.
  split; [reflexivity|]. split; [reflexivity|].
  assert (N : ~ In (ev_id MoreSamples.E5) (processedEvents Sample.afterE1))
    by (vm_compute; intros [H|[]]; discriminate).
  assert (Hnew : forall x, In x (entries Sample.afterE1) ->
                           (createdAt x < 200)%Z)
    by (intros x [<-|[]]; simpl; lia).
  destruct (newest_creator_is_current_owner
              Sample.secret MoreSamples.constructEvent Sample.parseFloat
              (Sample.delivery "E5" [] 200) Sample.afterE1 MoreSamples.E5
              "cus_2" eq_refl eq_refl N eq_refl eq_refl eq_refl eq_refl Hnew)
    as [Rk [_ [B _]]].
  split; [rewrite Rk; reflexivity|exact B].
Defined.

Lemma globe_shows_the_located_entries_witness :
  reachable Sample.secret Sample.constructEvent Sample.parseFloat
            Sample.afterE1
  /\ In MoreSamples.adaPin (Frontend.globeData (pageOf Sample.afterE1)).
Proof.
  assert (R : reachable Sample.secret Sample.constructEvent Sample.parseFloat
                        Sample.afterE1)
    by (unfold Sample.afterE1; apply reachable_deliver, reachable_empty).
  split; [exact R|].
  apply (proj2 (globe_shows_the_located_entries
                  Sample.secret Sample.constructEvent Sample.parseFloat
                  Sample.afterE1 MoreSamples.adaPin R)).
  exists Sample.ada. repeat split. now left.
Defined.

Lemma legacy_top_up_adds_and_keeps_witness :
  find (LegacyService.matches (Some "B"))
       [Sample.A50; Sample.B30; Sample.C80] = Some Sample.B30
  /\ exists updated,
       find (LegacyService.matches (Some "B"))
            (fst (LegacyService.addEntry MoreSamples.paysB
                    [Sample.A50; Sample.B30; Sample.C80] []))
       = Some updated
       /\ Legacy.amount updated = (30 + 60)%Q
       /\ Legacy.link updated = "https://b.example"
       /\ Legacy.message updated = "".
Proof.
  split; [reflexivity|].
  destruct (legacy_top_up_adds_and_keeps MoreSamples.paysB
              [Sample.A50; Sample.B30; Sample.C80] "B" Sample.B30
              eq_refl eq_refl)
    as [updated [F [A [L [_ [M _]]]]]].
  exists updated. repeat split; assumption.
Defined.

Lemma legacy_payment_never_lowers_rank_witness :
  LegacyService.rankOf "B"
    (Legacy.getLeaderboard [Sample.A50; Sample.B30; Sample.C80] false)
  = Some 2%nat
  /\ exists r',
       LegacyService.rankOf "B"
         (Legacy.getLeaderboard
            (fst (LegacyService.addEntry MoreSamples.paysB
                    [Sample.A50; Sample.B30; Sample.C80] []))
            false) = Some r'
       /\ (r' <= 2)%nat.
Proof.
  split; [reflexivity|].
  apply (legacy_payment_never_lowers_rank MoreSamples.paysB
           [Sample.A50; Sample.B30; Sample.C80] "B" 2 []).
  - simpl. repeat constructor; simpl; intuition discriminate.
  - reflexivity.
  - unfold Qle. simpl. lia.
  - reflexivity.
Defined.

Lemma overlapping_deliveries_credit_twice_witness :
  entryOf "cus_1" Sample.afterE1 = Some Sample.ada
  /\ exists s',
       Overlap.run Sample.parseFloat
         [Interleaving.A; Interleaving.B;
          Interleaving.A; Interleaving.A; Interleaving.A;
          Interleaving.B; Interleaving.B; Interleaving.B]
         (Overlap.Received Sample.E2) (Overlap.Received Sample.E2)
         (world Sample.afterE1 [] 200)
       = (inr (Overlap.Answered
                 {| status := 200; body := Text "Event received" |},
               Overlap.Answered
                 {| status := 200; body := Text "Event received" |}),
          world s' [] 200)
       /\ (totalOf "cus_1" s'
           == amount Sample.ada + inject_Z 500 / 100 + inject_Z 500 / 100)%Q
       /\ processedEvents s' = ["evt_1"; "evt_2"].
Proof.
  split; [reflexivity|].
  assert (N : ~ In (ev_id Sample.E2) (processedEvents Sample.afterE1))
    by (vm_compute; intros [H|[]]; discriminate).
  assert (Hne : ev_id Sample.E2 <> "") by (simpl; discriminate).
  destruct (overlapping_deliveries_credit_twice Sample.parseFloat
              Sample.E2 Sample.afterE1 "cus_1" Sample.ada 200
              eq_refl Hne N eq_refl eq_refl)
    as [s' [R [T [P _]]]].
  exists s'. split; [exact R|]. split; [exact T|exact P].
Defined.

End FurtherSamples.
